(** * pybind11-stubgen: the correction passes of [parser/mixins/fix.py]

    A shallow embedding of the passes (mix-ins) that rewrite the declaration
    tree produced by introspection, and the properties of these passes.

    Every pass overrides some hooks of [IParser] and calls [super()] to get
    the result of the passes beneath it.  A hook of a pass is embedded as a
    function taking the result (or the hook) of [super()] as an argument.
    The live Python objects the passes inspect ([hasattr], [getattr],
    [importlib.import_module]) are reached through a record of capabilities,
    [Host]. *)

From Stdlib Require Import String Ascii List Bool Arith Lia Sorted Permutation.
From stdpp Require Import base option list sets gmap strings sorting pretty.
From Equations Require Import Equations.

Set Warnings "-register-all,-clear-no-such-hyp".
Local Open Scope string_scope.
Local Open Scope list_scope.

(** ** The declaration tree ([pybind11_stubgen.structs]) *)

Module Structs.

(** Modelled from the spec: [structs.Identifier] (a [str] subclass), one
    segment of a qualified name. *)
Definition Identifier : Type := string.

(** Modelled from the spec: [structs.QualifiedName], an ordered,
    possibly-empty sequence of identifier segments (a tuple). *)
Definition QualifiedName : Type := list string.

(** Modelled from the spec: [QualifiedName.parent], the name without its
    last segment ([name[:-1]]); the parent of the empty name is empty. *)
Definition parent (name : QualifiedName) : QualifiedName := removelast name.

(** Modelled from the spec: [str(name)], the dotted path of the segments. *)
Definition qn_str (name : QualifiedName) : string := String.concat "." name.

(** [s.split(".")] on the characters of [s]: [cur] holds the segment being
    read, in reverse. *)
Fixpoint split_dots (cur : list ascii) (s : string) : list string :=
  match s with
  | EmptyString => [string_of_list_ascii (rev cur)]
  | String c s' =>
      if Ascii.eqb c "."
      then string_of_list_ascii (rev cur) :: split_dots [] s'
      else split_dots (c :: cur) s'
  end.

(** Modelled from the spec: [QualifiedName.from_str], the segments of a
    dotted path. *)
Definition from_str (s : string) : QualifiedName := split_dots [] s.

(** Modelled from the spec: [structs.Value], the rendered literal text of a
    constant. *)
Record Value : Type := mkValue { repr : string }.

(** Modelled from the spec: [structs.ResolvedType | Value |
    InvalidExpression], the three forms of a parsed annotation.  A resolved
    type is a qualified name with an optional list of parameters, each one
    an annotation again. *)
Inductive Annotation : Type :=
| ResolvedType (name : QualifiedName) (parameters : option (list Annotation))
| ValueExpr (value : Value)
| InvalidExpression (text : string).

#[global] Instance Value_eq_dec : EqDecision Value.
Proof. solve_decision. Defined.

(** Equality of annotations is the structural equality of Python's
    dataclasses: same class, equal fields. *)
#[global] Instance Annotation_eq_dec : EqDecision Annotation.
Proof.
  refine (fix go (a b : Annotation) {struct a} : Decision (a = b) :=
    match a, b with
    | ResolvedType n1 p1, ResolvedType n2 p2 =>
        cast_if_and (decide (n1 = n2))
          (@decide (p1 = p2) (@option_eq_dec _ (@list_eq_dec _ go) p1 p2))
    | ValueExpr v1, ValueExpr v2 => cast_if (decide (v1 = v2))
    | InvalidExpression t1, InvalidExpression t2 => cast_if (decide (t1 = t2))
    | _, _ => right _
    end); abstract congruence.
Defined.

(** Modelled from the spec: [structs.Import]; [name = None] is a
    whole-module import, [name = Some n] imports the name [n] from its
    origin. *)
Record Import : Type := mkImport {
  import_name : option Identifier;
  import_origin : QualifiedName
}.

#[global] Instance Import_eq_dec : EqDecision Import.
Proof. solve_decision. Defined.

#[global] Instance Import_countable : Countable Import.
Proof.
  refine (inj_countable' (fun i => (import_name i, import_origin i))
            (fun p => mkImport p.1 p.2) _).
  by intros [].
Defined.

(** Modelled from the spec: [structs.Alias]. *)
Record Alias : Type := mkAlias {
  alias_name : Identifier;
  alias_origin : QualifiedName
}.

(** Modelled from the spec: [structs.Attribute]. *)
Record Attribute : Type := mkAttribute {
  attr_name : Identifier;
  attr_value : option Value;
  attr_annotation : option Annotation
}.

(** Modelled from the spec: [structs.Argument]. *)
Record Argument : Type := mkArgument {
  arg_name : option Identifier;
  arg_annotation : option Annotation
}.

(** Modelled from the spec: [structs.Function]. *)
Record Function : Type := mkFunction {
  func_name : Identifier;
  func_args : list Argument;
  func_returns : option Annotation;
  func_doc : option string
}.

(** Modelled from the spec: [structs.Modifier]. *)
Inductive Modifier : Type := Static | ClassMethod.

(** Modelled from the spec: [structs.Field]. *)
Record Field : Type := mkField {
  field_attribute : Attribute;
  field_modifier : option Modifier
}.

(** Modelled from the spec: [structs.Method]. *)
Record Method : Type := mkMethod {
  method_function : Function;
  method_modifier : option Modifier
}.

(** Modelled from the spec: [structs.Property]. *)
Record Property : Type := mkProperty {
  prop_name : Identifier;
  prop_getter : option Function;
  prop_setter : option Function;
  prop_doc : option string
}.

(** Modelled from the spec: [structs.Class]; a class owns nested members. *)
Inductive Class : Type := mkClass {
  class_name : Identifier;
  class_doc : option string;
  class_bases : list QualifiedName;
  class_classes : list Class;
  class_fields : list Field;
  class_methods : list Method;
  class_properties : list Property;
  class_aliases : list Alias
}.

(** Modelled from the spec: [structs.Module]; a module owns an import set,
    its aliases and the lists of its classes, functions, attributes and
    sub-modules. *)
Inductive Module : Type := mkModule {
  module_name : Identifier;
  module_doc : option string;
  module_classes : list Class;
  module_functions : list Function;
  module_sub_modules : list Module;
  module_attributes : list Attribute;
  module_imports : gset Import;
  module_aliases : list Alias
}.

End Structs.
Export Structs.

(** ** The host environment

    The passes inspect live objects.  [Host] gathers what they use:
    the [builtins] module, [hasattr], [getattr], and
    [importlib.import_module], which answers [None] where Python raises
    [ModuleNotFoundError]. *)

Record Host (Obj : Type) : Type := mkHost {
  builtins : Obj;
  hasattr : Obj -> Identifier -> bool;
  getattr : Obj -> Identifier -> Obj;
  import_module : string -> option Obj
}.
Arguments mkHost {Obj}.
Arguments builtins {Obj}.
Arguments hasattr {Obj}.
Arguments getattr {Obj}.
Arguments import_module {Obj}.

(** Modelled from the spec: [parser.errors.NameResolutionError], the
    diagnostic that names a qualified name no import could be found for. *)
Inductive ParserError : Type :=
| NameResolutionError (name : QualifiedName).

(** ** [FixMissingImports] *)

Module FixMissingImports.

(** The fields of the pass ([__extra_imports], [__current_module],
    [__current_class]) and the diagnostics [report_error] has received. *)
Record State (Obj : Type) : Type := mkState {
  extra_imports : gset Import;
  current_module : option Obj;
  current_class : option Obj;
  errors : list ParserError
}.
Arguments mkState {Obj}.
Arguments extra_imports {Obj}.
Arguments current_module {Obj}.
Arguments current_class {Obj}.
Arguments errors {Obj}.

Definition set_extra_imports {Obj} (s : gset Import) (st : State Obj) : State Obj :=
  mkState s (current_module st) (current_class st) (errors st).

Definition set_current_module {Obj} (m : option Obj) (st : State Obj) : State Obj :=
  mkState (extra_imports st) m (current_class st) (errors st).

Definition set_current_class {Obj} (c : option Obj) (st : State Obj) : State Obj :=
  mkState (extra_imports st) (current_module st) c (errors st).

(** [self.report_error(e)]: the diagnostic is recorded, the traversal goes
    on. *)
Definition report_error {Obj} (e : ParserError) (st : State Obj) : State Obj :=
  mkState (extra_imports st) (current_module st) (current_class st)
          (errors st ++ [e]).

(** [self.__extra_imports.add(i)] *)
Definition add_extra_import {Obj} (i : Import) (st : State Obj) : State Obj :=
  set_extra_imports (extra_imports st ∪ {[ i ]}) st.

Definition set_module_imports (s : gset Import) (m : Module) : Module :=
  mkModule (module_name m) (module_doc m) (module_classes m)
           (module_functions m) (module_sub_modules m) (module_attributes m)
           s (module_aliases m).

Section Resolver.
Context {Obj : Type} (host : Host Obj).

Definition _is_module (name : QualifiedName) : bool :=
  match import_module host (qn_str name) with
  | Some _ => true
  | None => false
  end.

(** The loop of [_is_accessible]: [parent] is replaced by its attribute
    [part] for every part of the relative path. *)
Fixpoint accessible_from (parent : Obj) (relative_path : list Identifier) : bool :=
  match relative_path with
  | [] => true
  | part :: rest =>
      if negb (hasattr host parent part) then false
      else accessible_from (getattr host parent part) rest
  end.

Definition _is_accessible (name from_module : QualifiedName) : bool :=
  match import_module host (qn_str from_module) with
  | None => false
  | Some parent => accessible_from parent (drop (length from_module) name)
  end.

(** The [while len(parent) != 0] loop of [_get_parent_module]. *)
Equations? parent_loop (name parent : QualifiedName) : option QualifiedName
  by wf (length parent) lt :=
parent_loop name [] := None;
parent_loop name (p :: ps) :=
  if _is_module (p :: ps) then
    if negb (_is_accessible name (p :: ps)) then None
    else Some (p :: ps)
  else parent_loop name (Structs.parent (p :: ps)).
Proof.
  change (length (removelast (p :: ps)) < S (length ps)).
  enough (H : length (removelast (p :: ps)) = length ps) by (rewrite H; lia).
  clear. revert p. induction ps as [|q ps IH]; intros p; [done|].
  change (removelast (p :: q :: ps)) with (p :: removelast (q :: ps)).
  cbn [length]. by rewrite IH.
Qed.

Definition _get_parent_module (name : QualifiedName) : option QualifiedName :=
  parent_loop name (Structs.parent name).

(** The three early returns of [_add_import]: the first segment is an
    attribute of [builtins], of the current class or of the current
    module.  They are guarded by [len(name) > 0]. *)
Definition locally_visible (st : State Obj) (name : QualifiedName) : bool :=
  match name with
  | [] => false
  | n0 :: _ =>
      hasattr host (builtins host) n0
      || match current_class st with
         | Some c => hasattr host c n0
         | None => false
         end
      || match current_module st with
         | Some m => hasattr host m n0
         | None => false
         end
  end.

Definition _add_import (name : QualifiedName) (st : State Obj) : State Obj :=
  if locally_visible st name then st
  else
    match _get_parent_module name with
    | None => report_error (NameResolutionError name) st
    | Some module_name => add_extra_import (mkImport None module_name) st
    end.

(** *** The hooks of the pass

    [super_...] stands for the hook of the passes beneath this one; it
    runs on the state of the pass, which it may change through the hooks
    it calls back. *)

Definition handle_alias (super_result : option Alias) (st : State Obj)
  : option Alias * State Obj :=
  match super_result with
  | None => (None, st)
  | Some result => (Some result, _add_import (alias_origin result) st)
  end.

Definition handle_attribute (super_result : option Attribute) (st : State Obj)
  : option Attribute * State Obj :=
  match super_result with
  | None => (None, st)
  | Some result =>
      match attr_annotation result with
      | Some (ResolvedType name _) => (Some result, _add_import name st)
      | _ => (Some result, st)
      end
  end.

Definition handle_class
    (super_handle_class : QualifiedName -> Obj -> State Obj -> option Class * State Obj)
    (path : QualifiedName) (class_ : Obj) (st : State Obj)
  : option Class * State Obj :=
  let old_class := current_class st in
  let '(result, st') := super_handle_class path class_ (set_current_class (Some class_) st) in
  (result, set_current_class old_class st').

Definition handle_import (super_result : option Import) (st : State Obj)
  : option Import * State Obj :=
  match super_result with
  | None => (None, st)
  | Some result => (Some result, add_extra_import result st)
  end.

Definition handle_module
    (super_handle_module : QualifiedName -> Obj -> State Obj -> option Module * State Obj)
    (path : QualifiedName) (module : Obj) (st : State Obj)
  : option Module * State Obj :=
  let old_imports := extra_imports st in
  let old_module := current_module st in
  let '(result, st') :=
    super_handle_module path module
      (set_current_module (Some module) (set_extra_imports ∅ st)) in
  let result' :=
    match result with
    | Some m => Some (set_module_imports (module_imports m ∪ extra_imports st') m)
    | None => None
    end in
  (result', set_current_module old_module (set_extra_imports old_imports st')).

(** [inspect.ismodule(type)] asks about the builtin [type], which is not
    a module: the import is always attempted. *)
Definition handle_type (super_result : QualifiedName) (st : State Obj)
  : QualifiedName * State Obj :=
  (super_result, _add_import super_result st).

Definition parse_annotation_str (super_result : Annotation) (st : State Obj)
  : Annotation * State Obj :=
  match super_result with
  | ResolvedType name _ => (super_result, _add_import name st)
  | _ => (super_result, st)
  end.

End Resolver.

End FixMissingImports.

(** ** Exceptions

    A hook either returns or raises; the passes below raise through a
    failed [assert] or an index out of range. *)

Inductive Exception : Type := AssertionError | IndexError.

Inductive Outcome (A : Type) : Type :=
| Returned (a : A)
| Raised (e : Exception).
Arguments Returned {A}.
Arguments Raised {A}.

#[global] Instance Outcome_ret : MRet Outcome := fun A a => Returned a.

#[global] Instance Outcome_bind : MBind Outcome := fun A B k o =>
  match o with
  | Returned a => k a
  | Raised e => Raised e
  end.

(** ** [FixMissing__all__Attribute] *)

Module FixMissing__all__Attribute.

Definition set_module_attributes (attrs : list Attribute) (m : Module) : Module :=
  mkModule (module_name m) (module_doc m) (module_classes m)
           (module_functions m) (module_sub_modules m) attrs
           (module_imports m) (module_aliases m).

(** The names the generator expressions of [handle_module] enumerate, in
    their order.  The import set is enumerated in the order of its
    elements; only imports with a bound name contribute. *)
Definition member_names (result : Module) : list string :=
  map class_name (module_classes result)
  ++ map attr_name (module_attributes result)
  ++ map func_name (module_functions result)
  ++ map alias_name (module_aliases result)
  ++ omap import_name (elements (module_imports result))
  ++ map module_name (module_sub_modules result).

(** [name.startswith("_")] *)
Definition startswith_underscore (name : string) : bool := String.prefix "_" name.

(** [sorted(set(filter(lambda name: not name.startswith("_"), ...)))]:
    the set is a [gset], the sort is on the order of strings. *)
Definition all_names (result : Module) : list string :=
  merge_sort String.le
    (elements
       (list_to_set
          (List.filter (fun name => negb (startswith_underscore name))
                       (member_names result)) : gset string)).

Section Pass.
(** [self.handle_value], the rendering of a live value by the parser. *)
Variable handle_value : list string -> Value.

(** The loop "don't override __all__": some attribute is named
    [__all__]. *)
Definition has___all__ (result : Module) : bool :=
  existsb (fun attr => String.eqb (attr_name attr) "__all__")
          (module_attributes result).

Definition handle_module (super_result : option Module) : option Module :=
  match super_result with
  | None => None
  | Some result =>
      if has___all__ result then Some result
      else
        Some (set_module_attributes
                (module_attributes result
                 ++ [mkAttribute "__all__"
                       (Some (handle_value (all_names result))) None])
                result)
  end.
End Pass.

End FixMissing__all__Attribute.

(** ** [FixTypingTypeNames] *)

Module FixTypingTypeNames.

Definition __typing_names : list Identifier :=
  [ "Annotated"; "Callable"; "Dict"; "Iterator"; "ItemsView"; "Iterable";
    "KeysView"; "List"; "Optional"; "Set"; "Sequence"; "Tuple"; "Union";
    "ValuesView";
    (* Old pybind11 annotations were not capitalized *)
    "iterator"; "iterable"; "sequence" ].

(** [c.upper()] on a character of the ASCII range. *)
Definition upper (c : ascii) : ascii :=
  let n := nat_of_ascii c in
  if ((97 <=? n) && (n <=? 122))%nat then ascii_of_nat (n - 32) else c.

(** [f"{word[0].upper()}{word[1:]}"]; the words it is applied to are those
    of [__typing_names], none of which is empty. *)
Definition capitalized (word : string) : string :=
  match word with
  | EmptyString => EmptyString
  | String c rest => String (upper c) rest
  end.

Definition parse_annotation_str (super_result : Annotation) : Outcome Annotation :=
  match super_result with
  | ResolvedType name parameters =>
      match name with
      | [] => Raised AssertionError
      | word :: _ =>
          if bool_decide (word ∈ __typing_names)
          then Returned (ResolvedType (from_str ("typing." ++ capitalized word))
                                      parameters)
          else Returned super_result
      end
  | _ => Returned super_result
  end.

End FixTypingTypeNames.

(** ** [ReplaceReadWritePropertyWithField] *)

Module ReplaceReadWritePropertyWithField.

(** What [handle_class_member] returns:
    [Docstring | Alias | Class | list[Method] | Field | Property]. *)
Inductive ClassMember : Type :=
| OfDocstring (doc : string)
| OfAlias (alias : Alias)
| OfClass (class_ : Class)
| OfMethods (methods : list Method)
| OfField (field : Field)
| OfProperty (prop : Property).

(** The conjunction under [isinstance(result, Property)].  The index [1]
    is read after [len(result.setter.args) == 2] held. *)
Definition is_read_write_field (result : Property) : bool :=
  match prop_getter result, prop_setter result with
  | Some getter, Some setter =>
      (length (func_args getter) =? 1)%nat
      && (length (func_args setter) =? 2)%nat
      && match func_args setter !! 1 with
         | Some value_arg =>
             bool_decide (func_returns getter = arg_annotation value_arg)
         | None => false
         end
  | _, _ => false
  end.

Definition handle_class_member (super_result : option ClassMember)
  : option ClassMember :=
  match super_result with
  | Some (OfProperty result) =>
      if is_read_write_field result then
        Some (OfField
                (mkField
                   (mkAttribute (prop_name result) None
                      (match prop_getter result with
                       | Some getter => func_returns getter
                       | None => None
                       end))
                   None))
      else super_result
  | _ => super_result
  end.

End ReplaceReadWritePropertyWithField.

(** ** [FixMissingEnumMembersAnnotation] *)

Module FixMissingEnumMembersAnnotation.

Definition __class_var_dict : Annotation :=
  ResolvedType (from_str "typing.ClassVar")
               (Some [ResolvedType (from_str "dict") None]).

(** [annotation.parameters = parameters], on a resolved type *)
Definition set_parameters (parameters : option (list Annotation))
    (annotation : Annotation) : Annotation :=
  match annotation with
  | ResolvedType name _ => ResolvedType name parameters
  | _ => annotation
  end.

Definition set_field_annotation (a : option Annotation) (f : Field) : Field :=
  mkField (mkAttribute (attr_name (field_attribute f))
                       (attr_value (field_attribute f)) a)
          (field_modifier f).

Section Pass.
Context {Obj : Type}.
(** [isinstance(field, dict)], with the items of the mapping in their
    order. *)
Variable as_dict : Obj -> option (list (Obj * Obj)).
(** [self.handle_type(type(x))] *)
Variable handle_type_of : Obj -> QualifiedName.
(** [self.parse_annotation_str] *)
Variable parse_annotation_str : string -> Annotation.

(** [assert isinstance(t, ResolvedType)], then [t.name] *)
Definition resolved_name (t : Annotation) : Outcome QualifiedName :=
  match t with
  | ResolvedType name _ => Returned name
  | _ => Raised AssertionError
  end.

(** The type of the keys, and in the same way of the values: the single
    observed type, or the union of the observed ones. *)
Definition observed_type (types : gset QualifiedName) : Outcome Annotation :=
  if (size types =? 1)%nat then
    match map (fun t => ResolvedType t None) (elements types) with
    | t :: _ => Returned t
    | [] => Raised IndexError
    end
  else
    union_name ← resolved_name (parse_annotation_str "typing.Union");
    Returned (ResolvedType union_name
                (Some (map (fun t => ResolvedType t None) (elements types)))).

Definition _guess_dict_type (d : list (Obj * Obj)) : Outcome (option Annotation) :=
  if (length d =? 0)%nat then Returned None
  else
    let key_types : gset QualifiedName :=
      list_to_set (map (fun kv => handle_type_of (fst kv)) d) in
    let value_types : gset QualifiedName :=
      list_to_set (map (fun kv => handle_type_of (snd kv)) d) in
    key_type ← observed_type key_types;
    value_type ← observed_type value_types;
    dict_name ← resolved_name (parse_annotation_str "typing.Dict");
    Returned (Some (ResolvedType dict_name (Some [key_type; value_type]))).

Definition handle_field (path : QualifiedName) (field : Obj)
    (super_result : option Field) : Outcome (option Field) :=
  match super_result with
  | None => Returned None
  | Some result =>
      match last path with
      | None => Raised IndexError
      | Some name =>
          match as_dict field with
          | Some d =>
              if String.eqb name "__members__"
                 && bool_decide (attr_annotation (field_attribute result)
                                 = Some __class_var_dict)
              then
                dict_type ← _guess_dict_type d;
                match dict_type with
                | Some t =>
                    Returned (Some (set_field_annotation
                                      (set_parameters (Some [t])
                                         <$> attr_annotation (field_attribute result))
                                      result))
                | None => Returned (Some result)
                end
              else Returned (Some result)
          | None => Returned (Some result)
          end
      end
  end.
End Pass.

End FixMissingEnumMembersAnnotation.

(** ** Regular expressions ([re])

    The part of Python's [re] module that [FixValueReprRandomAddress] uses:
    a backtracking matcher for literals, character sets, sequences, greedy
    repetition and named groups, and [Pattern.sub] with a template that
    refers to groups.  A [str] is a list of code points. *)

Module Re.

(** What [\w] and [\s] of a [str] pattern ask the Unicode database of the
    interpreter: [str.isalnum] and [str.isspace] of a code point.  The
    classes below write the ASCII range out and consult the database
    beyond it. *)
Record Unicode : Type := mkUnicode {
  isalnum : N -> bool;
  isspace : N -> bool
}.

(** The code points of a literal of the pattern, which is ASCII. *)
Definition text (s : string) : list N :=
  map N_of_ascii (list_ascii_of_string s).

Inductive regex : Type :=
| Lit (text : list N)
| Class (set : N -> bool)
| Seq (r1 r2 : regex)
| Star (r : regex)
| Group (name : string) (r : regex).

(** [r+], one [r] and then [r*] *)
Definition Plus (r : regex) : regex := Seq r (Star r).

(** The text of the groups matched so far, the latest first. *)
Definition captures : Type := list (string * list N).

Fixpoint group (name : string) (caps : captures) : option (list N) :=
  match caps with
  | [] => None
  | (n, text) :: caps' => if String.eqb n name then Some text else group name caps'
  end.

(** [strip_prefix text s] is what follows [text] in [s], when [s] starts
    with [text]. *)
Fixpoint strip_prefix (text s : list N) : option (list N) :=
  match text, s with
  | [], _ => Some s
  | c :: text', d :: s' => if (c =? d)%N then strip_prefix text' s' else None
  | _ :: _, [] => None
  end.

Section Matcher.
Context {R : Type}.

(** What is left to match after a sub-expression: it receives the rest of
    the text and the groups, and fails ([None]) to make the matcher try
    its next alternative. *)
Definition cont : Type := list N -> captures -> option R.

(** Greedy repetition of the matcher [m]: one more iteration is tried
    first, then the continuation.  An iteration has to consume text; [n]
    bounds the number of iterations, and the length of the text is
    enough. *)
Fixpoint star_loop (m : list N -> captures -> cont -> option R)
    (n : nat) (s : list N) (caps : captures) (k : cont) : option R :=
  match n with
  | 0 => k s caps
  | S n' =>
      match m s caps (fun s' caps' =>
               if (length s' <? length s)%nat
               then star_loop m n' s' caps' k else None) with
      | Some res => Some res
      | None => k s caps
      end
  end.

Fixpoint rmatch (r : regex) (s : list N) (caps : captures) (k : cont)
  : option R :=
  match r with
  | Lit text =>
      match strip_prefix text s with
      | Some s' => k s' caps
      | None => None
      end
  | Class set =>
      match s with
      | c :: s' => if set c then k s' caps else None
      | [] => None
      end
  | Seq r1 r2 => rmatch r1 s caps (fun s' caps' => rmatch r2 s' caps' k)
  | Star r' => star_loop (rmatch r') (length s) s caps k
  | Group name r' =>
      rmatch r' s caps (fun s' caps' =>
        k s' ((name, take (length s - length s') s) :: caps'))
  end.
End Matcher.

(** [pattern.match(s)]: the groups of the first match the backtracking
    finds at the start of [s], and the text after the match. *)
Definition match_here (r : regex) (s : list N)
  : option (captures * list N) :=
  rmatch r s [] (fun s' caps => Some (caps, s')).

(** A replacement template: text and references [\g<name>]. *)
Inductive piece : Type :=
| Text (text : list N)
| GroupRef (name : string).

Fixpoint expand (template : list piece) (caps : captures) : list N :=
  match template with
  | [] => []
  | Text text :: template' => text ++ expand template' caps
  | GroupRef name :: template' =>
      default [] (group name caps) ++ expand template' caps
  end.

(** [pattern.sub(template, s)]: the text is scanned from the left; where
    the pattern matches, the expansion of the template replaces the match
    and the scan goes on after it; elsewhere the character is copied.
    After an empty match the next character is copied. *)
Fixpoint sub_loop (fuel : nat) (r : regex) (template : list piece)
    (s : list N) : list N :=
  match fuel with
  | 0 => s
  | S fuel' =>
      match match_here r s with
      | Some (caps, rest) =>
          expand template caps
          ++ (if (length rest <? length s)%nat
              then sub_loop fuel' r template rest
              else match s with
                   | [] => []
                   | c :: s' => c :: sub_loop fuel' r template s'
                   end)
      | None =>
          match s with
          | [] => []
          | c :: s' => c :: sub_loop fuel' r template s'
          end
      end
  end.

Definition sub (r : regex) (template : list piece) (s : list N) : list N :=
  sub_loop (S (length s)) r template s.

(** *** Character sets *)

Definition in_range (lo hi : N) (c : N) : bool :=
  ((lo <=? c) && (c <=? hi))%N.

(** [0-9] *)
Definition is_digit (c : N) : bool := in_range 48 57 c.

(** [\w]: in the ASCII range the letters [a-z] and [A-Z], the digits and
    the underscore; beyond it what [str.isalnum] accepts. *)
Definition is_word (u : Unicode) (c : N) : bool :=
  if (c <? 128)%N
  then in_range 97 122 c || in_range 65 90 c || is_digit c || (c =? 95)%N
  else isalnum u c.

(** [\s]: in the ASCII range the space, [\t\n\v\f\r] and the four
    separators [\x1c]-[\x1f]; beyond it what [str.isspace] accepts. *)
Definition is_space (u : Unicode) (c : N) : bool :=
  if (c <? 128)%N
  then (c =? 32)%N || in_range 9 13 c || in_range 28 31 c
  else isspace u c.

(** No code point is both alphanumeric and a space. *)
Definition disjoint (u : Unicode) : Prop :=
  ∀ c, isspace u c = true → isalnum u c = false.

(** *** Expressions that cannot match across a [<] *)

(** The code point of [<]. *)
Definition bracket : N := 60.

(** No literal of the expression has a [<] and no set of it accepts
    one. *)
Fixpoint bracket_free (r : regex) : Prop :=
  match r with
  | Lit text => Forall (fun c => c ≠ bracket) text
  | Class set => set bracket = false
  | Seq r1 r2 => bracket_free r1 ∧ bracket_free r2
  | Star r' => bracket_free r'
  | Group _ r' => bracket_free r'
  end.

(** The result of a match, when [rest] follows the text it was found
    in. *)
Definition followed_by (rest : list N) (res : captures * list N)
  : captures * list N :=
  (fst res, snd res ++ rest).

(** [k'] does after [s ++ rest] what [k] does after [s]. *)
Definition continues (rest : list N) (k k' : @cont (captures * list N)) : Prop :=
  ∀ s caps, k' (s ++ rest) caps = option_map (followed_by rest) (k s caps).

End Re.

(** ** [FixValueReprRandomAddress] *)

Module FixValueReprRandomAddress.
Import Re.

Definition text := Re.text.

Section Pass.
Variable u : Unicode.

(** [[\w.]] *)
Definition name_char (c : N) : bool := is_word u c || (c =? 46)%N.

(** [[a-fA-F0-9]] *)
Definition hex_char (c : N) : bool :=
  in_range 97 102 c || in_range 65 70 c || is_digit c.

(** [<(?P<name>[\w.]+) object (?P<capsule>\w+\s)*at (?P<address>0x[a-fA-F0-9]+)>] *)
Definition _pattern : regex :=
  Seq (Lit (text "<"))
 (Seq (Group "name" (Plus (Class name_char)))
 (Seq (Lit (text " object "))
 (Seq (Star (Group "capsule" (Seq (Plus (Class (is_word u))) (Class (is_space u)))))
 (Seq (Lit (text "at "))
 (Seq (Group "address" (Seq (Lit (text "0x")) (Plus (Class hex_char))))
      (Lit (text ">"))))))).

(** [<\g<name> object>] *)
Definition replacement : list piece :=
  [Text (text "<"); GroupRef "name"; Text (text " object>")].

(** The repr and the result are [str]s, lists of code points. *)
Definition value_to_repr (super_result : list N) : list N :=
  sub _pattern replacement super_result.
End Pass.

End FixValueReprRandomAddress.


(** ** Test environments *)

Module Shadowed.

(** A package [a] whose attribute [b] is a class that shadows the
    sub-module [a.b] (as after [from .b import b] in [a/__init__.py]):
    the class has an attribute [c], the sub-module has [d] and no [c]. *)
Inductive obj : Type :=
| builtins_module | package_a | module_a_b | class_b | member.

Definition host : Host obj := {|
  builtins := builtins_module;
  hasattr o n :=
    match o with
    | builtins_module => String.eqb n "int" || String.eqb n "str"
    | package_a => String.eqb n "b"
    | module_a_b => String.eqb n "b" || String.eqb n "d"
    | class_b => String.eqb n "c"
    | member => false
    end;
  getattr o n :=
    match o with
    | package_a => class_b
    | module_a_b => if String.eqb n "b" then class_b else member
    | _ => member
    end;
  import_module s :=
    if String.eqb s "a" then Some package_a
    else if String.eqb s "a.b" then Some module_a_b
    else None
|}.

Definition start : FixMissingImports.State obj :=
  FixMissingImports.mkState ∅ None None [].

Definition empty_module (name : Identifier) (sub_modules : list Module) : Module :=
  mkModule name None [] [] sub_modules [] ∅ [].

(** A traversal beneath the pass, for a module [m] with a sub-module
    [m.sub]: the sub-module refers to [a.b]; the module refers to [a.b.d]
    before, and to [int] after, it visits the sub-module through the
    [handle_module] of the pass. *)
Definition visit_sub (path : QualifiedName) (module : obj)
    (st : FixMissingImports.State obj)
  : option Module * FixMissingImports.State obj :=
  (Some (empty_module "sub" []),
   FixMissingImports._add_import host ["a"; "b"] st).

Definition visit_top (path : QualifiedName) (module : obj)
    (st : FixMissingImports.State obj)
  : option Module * FixMissingImports.State obj :=
  let st1 := FixMissingImports._add_import host ["a"; "b"; "d"] st in
  let '(sub, st2) :=
    FixMissingImports.handle_module visit_sub (path ++ ["sub"]) member st1 in
  let st3 := FixMissingImports._add_import host ["int"] st2 in
  (Some (empty_module "m" (option_list sub)), st3).

End Shadowed.

(** ** The vocabulary of the properties *)

Section Prefixes.
Context {Obj : Type} (host : Host Obj).

(** [p] is a non-empty proper prefix of [name]. *)
Definition proper_prefix (p name : QualifiedName) : Prop :=
  p ≠ [] ∧ p ≠ name ∧ p `prefix_of` name.

(** [p] is the longest proper prefix of [name] that imports as a
    module. *)
Definition longest_importable (name p : QualifiedName) : Prop :=
  proper_prefix p name
  ∧ FixMissingImports._is_module host p = true
  ∧ ∀ q, proper_prefix q name → length p < length q →
         FixMissingImports._is_module host q = false.


End Prefixes.

(** The getter takes the receiver only, the setter takes the receiver and
    one value, and the getter returns what the value is annotated with. *)
Definition read_write_pair (getter setter : Function) : Prop :=
  ∃ self_g self_s value_arg,
    func_args getter = [self_g]
    ∧ func_args setter = [self_s; value_arg]
    ∧ func_returns getter = arg_annotation value_arg.

Module PropertyExamples.
Import ReplaceReadWritePropertyWithField.

Definition int_type : Annotation := ResolvedType ["int"] None.
Definition str_type : Annotation := ResolvedType ["str"] None.
Definition none_type : Annotation := ResolvedType ["None"] None.
Definition self_arg : Argument := mkArgument (Some "self") None.

(** A getter [() -> int] *)
Definition getter_int : Function :=
  mkFunction "x" [self_arg] (Some int_type) None.

(** A setter [(t) -> None] *)
Definition setter_of (t : Annotation) : Function :=
  mkFunction "x" [self_arg; mkArgument (Some "arg0") (Some t)] (Some none_type) None.

Definition property_x (setter : Function) : Property :=
  mkProperty "x" (Some getter_int) (Some setter) None.

End PropertyExamples.

(** [n] is the name of a class, an attribute, a function, an alias, a
    named import or a sub-module of the module. *)
Definition names_member (result : Module) (n : string) : Prop :=
  (∃ c, c ∈ module_classes result ∧ class_name c = n)
  ∨ (∃ a, a ∈ module_attributes result ∧ attr_name a = n)
  ∨ (∃ f, f ∈ module_functions result ∧ func_name f = n)
  ∨ (∃ a, a ∈ module_aliases result ∧ alias_name a = n)
  ∨ (∃ i, i ∈ module_imports result ∧ import_name i = Some n)
  ∨ (∃ m, m ∈ module_sub_modules result ∧ module_name m = n).

(** [n] starts with an underscore. *)
Definition underscore_prefixed (n : string) : Prop := ∃ rest, n = String "_" rest.

Module ExportExamples.

Definition class_named (name : Identifier) : Class :=
  mkClass name None [] [] [] [] [] [].

(** A module with the classes [A], [B] and [_Hidden], the function [f] and
    a named import of [A]. *)
Definition shapes : Module :=
  mkModule "shapes" None
    [class_named "B"; class_named "A"; class_named "_Hidden"]
    [mkFunction "f" [] None None]
    [] []
    {[ mkImport (Some "A") ["shapes"; "core"; "A"]; mkImport None ["typing"] ]}
    [].

(** The rendering of a list of names as its Python literal. *)
Definition render_names (names : list string) : Value :=
  mkValue ("[" ++ String.concat ", " (map (fun n => ("'" ++ n ++ "'")%string) names) ++ "]").

End ExportExamples.

Module LiveValues.

(** Live values as the enumeration pass meets them: strings, integers,
    [None] and mappings. *)
Inductive live : Type :=
| Str (s : string)
| Int (n : nat)
| NoneValue
| Dict (items : list (live * live)).

Definition as_dict (v : live) : option (list (live * live)) :=
  match v with
  | Dict items => Some items
  | _ => None
  end.

(** The name of the type of a value, the builtin namespace stripped. *)
Definition handle_type_of (v : live) : QualifiedName :=
  match v with
  | Str _ => ["str"]
  | Int _ => ["int"]
  | NoneValue => ["None"]
  | Dict _ => ["dict"]
  end.

(** A parser for dotted names without parameters. *)
Definition parse_annotation_str (s : string) : Annotation :=
  ResolvedType (from_str s) None.

(** [{"RED": 0, "GREEN": 1}] *)
Definition colours : live := Dict [(Str "RED", Int 0); (Str "GREEN", Int 1)].

(** The field [__members__ : typing.ClassVar[dict]] *)
Definition members_field : Field :=
  mkField (mkAttribute "__members__" None
             (Some FixMissingEnumMembersAnnotation.__class_var_dict))
          None.

End LiveValues.

(** *** The reprs with an address

    [<NAME object at 0xHEX>] and [<NAME object WORD ... at 0xHEX>]: a
    dotted name, words of [\w] characters each followed by one space
    character, hexadecimal digits. *)

Definition extra_words (extras : list (list N * N)) : list N :=
  concat (map (fun e => fst e ++ [snd e]) extras).

Definition repr_with_address (name : list N)
    (extras : list (list N * N)) (hex : list N) : list N :=
  Re.text "<" ++ name
  ++ Re.text " object " ++ extra_words extras
  ++ Re.text "at "
  ++ Re.text "0x" ++ hex
  ++ Re.text ">".

(** [<NAME object>] *)
Definition repr_without_address (name : list N) : list N :=
  Re.text "<" ++ name ++ Re.text " object>".

(** A word of [\w] characters and the space character after it. *)
Definition extra_word (u : Re.Unicode) (e : list N * N) : Prop :=
  fst e ≠ [] ∧ Forall (fun c => Re.is_word u c = true) (fst e)
  ∧ Re.is_space u (snd e) = true.

Module UnicodeExamples.

(** A database that knows a few code points beyond the ASCII range: the
    letters [é] and [ü], the no-break space and the next-line control. *)
Definition latin : Re.Unicode := {|
  Re.isalnum c := (c =? 233)%N || (c =? 252)%N;
  Re.isspace c := (c =? 133)%N || (c =? 160)%N
|}.

(** [Café], with [é] as the code point 233. *)
Definition cafe : list N := Re.text "Caf" ++ [233%N].

End UnicodeExamples.

(** ** [RemoveSelfAnnotation] *)

Module RemoveSelfAnnotation.

Definition set_func_args (args : list Argument) (f : Function) : Function :=
  mkFunction (func_name f) args (func_returns f) (func_doc f).

(** [func.args[0].annotation = None], when there is a first argument and
    it is named [self]. *)
Definition _remove_self_arg_annotation (func : Function) : Function :=
  match func_args func with
  | [] => func
  | arg0 :: rest =>
      if bool_decide (arg_name arg0 = Some "self")
      then set_func_args (mkArgument (arg_name arg0) None :: rest) func
      else func
  end.

Definition handle_method (super_result : list Method) : list Method :=
  map (fun method =>
         mkMethod (_remove_self_arg_annotation (method_function method))
                  (method_modifier method))
      super_result.

Definition handle_property (super_result : option Property) : option Property :=
  match super_result with
  | None => None
  | Some prop =>
      Some (mkProperty (prop_name prop)
              (_remove_self_arg_annotation <$> prop_getter prop)
              (_remove_self_arg_annotation <$> prop_setter prop)
              (prop_doc prop))
  end.

End RemoveSelfAnnotation.

(** ** [FixMissing__future__AnnotationsImport] *)

Module FixMissing__future__AnnotationsImport.

Definition _future (feature : Identifier) : Import :=
  mkImport (Some feature) ["__future__"; feature].

Definition handle_module (super_result : option Module) : option Module :=
  match super_result with
  | None => None
  | Some result =>
      Some (FixMissingImports.set_module_imports
              (module_imports result ∪ {[ _future "annotations" ]}) result)
  end.

End FixMissing__future__AnnotationsImport.

(** ** [FixBuiltinTypes] *)

Module FixBuiltinTypes.

(** What the pass reads of a live type. *)
Record PyType : Type := mkPyType {
  __qualname__ : string;
  __module__ : string
}.

Definition _any_type : QualifiedName := from_str "typing.Any".

Section Pass.
Variable super_handle_type : PyType -> QualifiedName.

(** [result[0]] and [result[1]] raise [IndexError] out of range. *)
Definition handle_type (type_ : PyType) : Outcome QualifiedName :=
  if String.eqb (__qualname__ type_) "PyCapsule"
     && String.eqb (__module__ type_) "builtins"
  then Returned _any_type
  else
    let result := super_handle_type type_ in
    match result !! 0 with
    | None => Raised IndexError
    | Some first =>
        if String.eqb first "builtins" then
          match result !! 1 with
          | None => Raised IndexError
          | Some second =>
              if String.eqb second "NoneType" then Returned ["None"]
              else Returned (drop 1 result)
          end
        else Returned result
    end.
End Pass.

End FixBuiltinTypes.

(** ** [FixRedundantBuiltinsAnnotation] *)

Module FixRedundantBuiltinsAnnotation.

Definition set_attr_annotation (a : option Annotation) (attr : Attribute) : Attribute :=
  mkAttribute (attr_name attr) (attr_value attr) a.

Section Pass.
Context {Obj : Type}.
(** [attr is None] and [inspect.ismodule(attr)] *)
Variable is_none : Obj -> bool.
Variable ismodule : Obj -> bool.

Definition handle_attribute (attr : Obj) (super_result : option Attribute)
  : option Attribute :=
  match super_result with
  | None => None
  | Some result =>
      if is_none attr || ismodule attr
      then Some (set_attr_annotation None result)
      else Some result
  end.
End Pass.

End FixRedundantBuiltinsAnnotation.

(** ** [FixMissingNoneHashFieldAnnotation] *)

Module FixMissingNoneHashFieldAnnotation.

Section Pass.
Context {Obj : Type}.
Variable is_none : Obj -> bool.
Variable parse_annotation_str : string -> Annotation.

(** [path[-1]] is read only when [field is None]. *)
Definition handle_field (path : QualifiedName) (field : Obj)
    (super_result : option Field) : Outcome (option Field) :=
  match super_result with
  | None => Returned None
  | Some result =>
      if is_none field then
        match last path with
        | None => Raised IndexError
        | Some name =>
            if String.eqb name "__hash__" then
              Returned (Some (FixMissingEnumMembersAnnotation.set_field_annotation
                                (Some (parse_annotation_str "typing.ClassVar[None]"))
                                result))
            else Returned (Some result)
        end
      else Returned (Some result)
  end.
End Pass.

End FixMissingNoneHashFieldAnnotation.

(** ** [FixTypingExtTypeNames] *)

Module FixTypingExtTypeNames.

Definition __typing_names : list Identifier := ["buffer"].

Definition parse_annotation_str (super_result : Annotation) : Outcome Annotation :=
  match super_result with
  | ResolvedType name parameters =>
      match name with
      | [] => Raised AssertionError
      | word :: _ =>
          if bool_decide (word ∈ __typing_names)
             && bool_decide (parameters = None)
          then Returned (ResolvedType
                           (from_str ("typing_extensions."
                                      ++ FixTypingTypeNames.capitalized word))
                           parameters)
          else Returned super_result
      end
  | _ => Returned super_result
  end.

End FixTypingExtTypeNames.

(** ** [FixCurrentModulePrefixInTypeNames]

    The state of the pass is its field [__current_module], a qualified
    name, empty at first. *)

Module FixCurrentModulePrefixInTypeNames.

Definition _strip_current_module (current_module name : QualifiedName)
  : QualifiedName :=
  if bool_decide (take (length current_module) name = current_module)
  then drop (length current_module) name
  else name.

Definition handle_alias (current_module : QualifiedName)
    (super_result : option Alias) : option Alias :=
  match super_result with
  | None => None
  | Some result =>
      Some (mkAlias (alias_name result)
                    (_strip_current_module current_module (alias_origin result)))
  end.

Definition handle_attribute (current_module : QualifiedName)
    (super_result : option Attribute) : option Attribute :=
  match super_result with
  | None => None
  | Some result =>
      match attr_annotation result with
      | Some (ResolvedType name parameters) =>
          Some (mkAttribute (attr_name result) (attr_value result)
                  (Some (ResolvedType (_strip_current_module current_module name)
                                      parameters)))
      | _ => Some result
      end
  end.

Definition handle_module
    (super_handle_module :
       QualifiedName -> QualifiedName -> option Module * QualifiedName)
    (path : QualifiedName) (current_module : QualifiedName)
  : option Module * QualifiedName :=
  let tmp := current_module in
  let '(result, _) := super_handle_module path path in
  (result, tmp).

Definition handle_type (current_module : QualifiedName)
    (super_result : QualifiedName) : QualifiedName :=
  _strip_current_module current_module super_result.

Definition parse_annotation_str (current_module : QualifiedName)
    (super_result : Annotation) : Annotation :=
  match super_result with
  | ResolvedType name parameters =>
      ResolvedType (_strip_current_module current_module name) parameters
  | _ => super_result
  end.

End FixCurrentModulePrefixInTypeNames.

(** ** [typing_ext.FixedSize] *)

Module typing_ext.

(** [str(d)] of an integer: its decimal digits, with a minus sign when
    negative. *)
Definition str_of_int (d : Z) : string := pretty d.

(** [FixedSize.__repr__], on the dimensions of the object; the class lives
    in the module [pybind11_stubgen.typing_ext]. *)
Definition __repr__ (dim : list Z) : string :=
  "pybind11_stubgen.typing_ext" ++ "." ++ "FixedSize"
  ++ "(" ++ String.concat ", " (map str_of_int dim) ++ ")".

End typing_ext.

(** ** [FixNumpyArrayDimAnnotation], [FixNumpyArrayRemoveParameters] and
    [FixMissingFixedSizeImport]

    [int(text)] is a capability of the host, [None] where Python raises
    [ValueError].  The hooks run on a state [S] of the parser on which
    [self.handle_type(FixedSize)] acts; a hook that raises [ValueError]
    returns [None] with the state reached. *)

Module FixNumpyArrayRemoveParameters.

Definition __ndarray_name : QualifiedName := from_str "numpy.ndarray".

Definition parse_annotation_str (super_result : Annotation) : Annotation :=
  match super_result with
  | ResolvedType name _ =>
      if bool_decide (name = __ndarray_name)
      then ResolvedType name None
      else super_result
  | _ => super_result
  end.

End FixNumpyArrayRemoveParameters.

Module FixNumpyArrayDimAnnotation.

Definition __ndarray_name : QualifiedName := from_str "numpy.ndarray".
Definition __annotated_name : QualifiedName := from_str "typing.Annotated".

Definition numpy_primitive_types : list QualifiedName :=
  map (fun name => from_str ("numpy." ++ name))
      [ "int8"; "int16"; "int32"; "int64"; "float16"; "float32"; "float64";
        "complex32"; "complex64"; "longcomplex" ].

(** [isinstance(dim, Value)] *)
Definition is_value (dim : Annotation) : bool :=
  match dim with
  | ValueExpr _ => true
  | _ => false
  end.

Section Pass.
Context {S : Type}.
Variable py_int : string -> option Z.
(** [self.handle_type(FixedSize)], for its effect *)
Variable handle_type_FixedSize : S -> S.
(** [self.handle_value(FixedSize( *dims ))] *)
Variable handle_value_FixedSize : list Z -> Value.

(** [[int(dim.repr) for dim in parameters if isinstance(dim, Value)]] *)
Fixpoint dims_of (parameters : list Annotation) : option (list Z) :=
  match parameters with
  | [] => Some []
  | ValueExpr v :: rest =>
      match py_int (repr v) with
      | None => None
      | Some d =>
          match dims_of rest with
          | None => None
          | Some ds => Some (d :: ds)
          end
      end
  | _ :: rest => dims_of rest
  end.

Definition parse_annotation_str (super_result : Annotation) (st : S)
  : option Annotation * S :=
  match super_result with
  | ResolvedType name (Some [ResolvedType param_name (Some dims)]) =>
      if bool_decide (name = __ndarray_name)
         && bool_decide (param_name ∈ numpy_primitive_types)
         && forallb is_value dims
      then
        match dims_of dims with
        | None => (None, st)
        | Some ds =>
            (Some (ResolvedType __annotated_name
                     (Some [ResolvedType __ndarray_name None;
                            ResolvedType param_name None;
                            ValueExpr (handle_value_FixedSize ds)])),
             handle_type_FixedSize st)
        end
      else (Some super_result, st)
  | _ => (Some super_result, st)
  end.
End Pass.

End FixNumpyArrayDimAnnotation.

(** ** [FixRedundantMethodsFromBuiltinObject] *)

Module FixRedundantMethodsFromBuiltinObject.

Section Pass.
(** [object.__init__.__doc__] *)
Variable object_init_doc : option string.

Definition is_object_init (m : Method) : bool :=
  String.eqb (func_name (method_function m)) "__init__"
  && bool_decide (func_doc (method_function m) = object_init_doc).

Definition handle_method (super_result : list Method) : list Method :=
  List.filter (fun m => negb (is_object_init m)) super_result.
End Pass.

End FixRedundantMethodsFromBuiltinObject.

(** ** [FixMissingFixedSizeImport] *)

Module FixMissingFixedSizeImport.

(** [s.split(sep)] for a separator of one character: [cur] holds the piece
    being read, in reverse. *)
Fixpoint split_on (sep : ascii) (cur : list ascii) (s : list ascii) : list string :=
  match s with
  | [] => [string_of_list_ascii (rev cur)]
  | c :: s' =>
      if Ascii.eqb c sep
      then string_of_list_ascii (rev cur) :: split_on sep [] s'
      else split_on sep (c :: cur) s'
  end.

(** [s.endswith(")")] *)
Definition endswith_paren (s : string) : bool :=
  match last (list_ascii_of_string s) with
  | Some c => Ascii.eqb c ")"
  | None => false
  end.

(** [s[len("FixedSize("):-len(")")].split(",")] *)
Definition dimension_texts (s : string) : list string :=
  split_on "," [] (removelast (drop 10 (list_ascii_of_string s))).

Section Pass.
Context {S : Type}.
Variable py_int : string -> option Z.
Variable handle_type_FixedSize : S -> S.
Variable handle_value_FixedSize : list Z -> Value.

(** The arguments of [FixedSize( *dimensions )]: [map] is lazy, so that
    [int] runs, and may raise, when the arguments are unpacked. *)
Fixpoint dimensions (texts : list string) : option (list Z) :=
  match texts with
  | [] => Some []
  | t :: rest =>
      match py_int t with
      | None => None
      | Some d =>
          match dimensions rest with
          | None => None
          | Some ds => Some (d :: ds)
          end
      end
  end.

(** The [try] holds the call of [map] only, which does not raise; the
    [else] branch calls [handle_type] and then builds the [FixedSize]. *)
Definition parse_annotation_str (super_result : Annotation) (st : S)
  : option Annotation * S :=
  match super_result with
  | ValueExpr v =>
      if String.prefix "FixedSize(" (repr v) && endswith_paren (repr v) then
        let st' := handle_type_FixedSize st in
        match dimensions (dimension_texts (repr v)) with
        | None => (None, st')
        | Some ds => (Some (ValueExpr (handle_value_FixedSize ds)), st')
        end
      else (Some super_result, st)
  | _ => (Some super_result, st)
  end.
End Pass.

End FixMissingFixedSizeImport.

Module TypeExamples.

(** The type of capsules and the type of [None], as the builtins expose
    them, and the name the passes beneath report for a type. *)
Definition capsule_type : FixBuiltinTypes.PyType :=
  FixBuiltinTypes.mkPyType "PyCapsule" "builtins".
Definition none_type : FixBuiltinTypes.PyType :=
  FixBuiltinTypes.mkPyType "NoneType" "builtins".
Definition int_type : FixBuiltinTypes.PyType :=
  FixBuiltinTypes.mkPyType "int" "builtins".

Definition qualified (type_ : FixBuiltinTypes.PyType) : QualifiedName :=
  from_str (FixBuiltinTypes.__module__ type_ ++ "."
            ++ FixBuiltinTypes.__qualname__ type_).

End TypeExamples.

Module IntExamples.

(** [int(text)] on decimal digits, spaces around them allowed. *)
Fixpoint digits (acc : Z) (s : list ascii) : option Z :=
  match s with
  | [] => Some acc
  | c :: s' =>
      if Re.is_digit (N_of_ascii c)
      then digits (10 * acc + (Z.of_nat (nat_of_ascii c) - 48)) s'
      else None
  end.

Fixpoint lstrip (s : list ascii) : list ascii :=
  match s with
  | c :: s' => if Ascii.eqb c " " then lstrip s' else s
  | [] => []
  end.

Definition py_int (s : string) : option Z :=
  match rev (lstrip (rev (lstrip (list_ascii_of_string s)))) with
  | [] => None
  | cs => digits 0 cs
  end.

(** The parser state: the types [handle_type] was called on. *)
Definition handle_type_FixedSize (st : list QualifiedName) : list QualifiedName :=
  st ++ [from_str "pybind11_stubgen.typing_ext.FixedSize"].

Definition handle_value_FixedSize (dim : list Z) : Value :=
  mkValue (typing_ext.__repr__ dim).

(** [numpy.ndarray[numpy.float32[3, 3]]] *)
Definition matrix33 : Annotation :=
  ResolvedType ["numpy"; "ndarray"]
    (Some [ResolvedType ["numpy"; "float32"]
             (Some [ValueExpr (mkValue "3"); ValueExpr (mkValue "3")])]).

End IntExamples.

(** The text has no comma. *)
Definition no_comma (t : string) : Prop :=
  Forall (fun c => c ≠ ","%char) (list_ascii_of_string t).

(** [FixedSize(t1,...,tn)], the texts joined by commas. *)
Definition fixed_size_text (texts : list string) : string :=
  "FixedSize(" ++ String.concat "," texts ++ ")".

Module AttributeExamples.

(** [v is None], on the live values *)
Definition live_is_none (v : LiveValues.live) : bool :=
  match v with
  | LiveValues.NoneValue => true
  | _ => false
  end.

End AttributeExamples.

(** * Properties *)

(** ** The resolver of [FixMissingImports] *)

Section ResolverFacts.
Import FixMissingImports.
Context {Obj : Type} (host : Host Obj).
Implicit Types (name par p q : QualifiedName) (st : State Obj).

Lemma parent_snoc par (x : string) : parent (par ++ [x]) = par.
Proof. apply removelast_last. Qed.

Lemma parent_loop_unfold name par :
  par ≠ [] →
  parent_loop host name par =
    if _is_module host par then
      if negb (_is_accessible host name par) then None else Some par
    else parent_loop host name (parent par).
Proof. destruct par; [done|]. intros _. by simp parent_loop. Qed.

Lemma prefix_snoc_inv q par (x : string) :
  q `prefix_of` par ++ [x] → q = par ++ [x] ∨ q `prefix_of` par.
Proof.
  intros [k Hk]. destruct k as [|y k _] using rev_ind.
  - left. by rewrite app_nil_r in Hk.
  - right. rewrite app_assoc in Hk. apply app_inj_tail in Hk as [-> _].
    by exists k.
Qed.

Lemma proper_prefix_parent name p :
  proper_prefix p name ↔ p ≠ [] ∧ p `prefix_of` parent name.
Proof.
  unfold proper_prefix.
  destruct name as [|x name _] using rev_ind.
  - split.
    + intros (? & ? & ->%prefix_nil_inv). done.
    + intros (? & ->%prefix_nil_inv). done.
  - rewrite parent_snoc. split.
    + intros (? & ? & [->|?]%prefix_snoc_inv); done.
    + intros (? & Hp). split_and!; [done| |by apply prefix_app_r].
      intros ->. apply prefix_length in Hp. rewrite length_app in Hp.
      simpl in Hp. lia.
Qed.

Lemma parent_loop_none name par :
  (∀ q, q ≠ [] → q `prefix_of` par → _is_module host q = false) →
  parent_loop host name par = None.
Proof.
  induction par as [|x par IH] using rev_ind; intros Hnone.
  - by simp parent_loop.
  - rewrite parent_loop_unfold by (by destruct par).
    rewrite Hnone by (by destruct par). rewrite parent_snoc.
    apply IH. intros q ? ?. apply Hnone; [done|]. by apply prefix_app_r.
Qed.

Lemma parent_loop_longest name par p :
  p ≠ [] → p `prefix_of` par → _is_module host p = true →
  (∀ q, q `prefix_of` par → length p < length q → _is_module host q = false) →
  parent_loop host name par =
    if _is_accessible host name p then Some p else None.
Proof.
  induction par as [|x par IH] using rev_ind; intros Hne Hp Hmod Hlong.
  - by apply prefix_nil_inv in Hp.
  - rewrite parent_loop_unfold by (by destruct par).
    apply prefix_snoc_inv in Hp as [->|Hp].
    + rewrite Hmod. by destruct (_is_accessible host name (par ++ [x])).
    + rewrite (Hlong (par ++ [x])); [|done|].
      * rewrite parent_snoc. apply IH; [done..|].
        intros q ? ?. apply Hlong; [|done]. by apply prefix_app_r.
      * apply prefix_length in Hp. rewrite length_app. simpl. lia.
Qed.

Lemma parent_loop_sound name par p :
  parent_loop host name par = Some p →
  p ≠ [] ∧ p `prefix_of` par
  ∧ _is_module host p = true ∧ _is_accessible host name p = true.
Proof.
  induction par as [|x par IH] using rev_ind.
  - by simp parent_loop.
  - rewrite parent_loop_unfold by (by destruct par).
    destruct (_is_module host (par ++ [x])) eqn:Hmod.
    + destruct (_is_accessible host name (par ++ [x])) eqn:Hacc; [|done].
      simpl. intros [= <-]. split_and!; [by destruct par|done..].
    + rewrite parent_snoc. intros (? & ? & ? & ?)%IH.
      split_and!; [done| |done..]. by apply prefix_app_r.
Qed.

Lemma get_parent_module_longest name p :
  longest_importable host name p →
  _get_parent_module host name =
    if _is_accessible host name p then Some p else None.
Proof.
  intros (Hp & Hmod & Hlong). unfold _get_parent_module.
  apply proper_prefix_parent in Hp as Hp'. destruct Hp' as [Hne Hpre].
  apply parent_loop_longest; [done..|].
  intros q Hq Hlen. apply Hlong; [|done].
  apply proper_prefix_parent. split; [|done].
  intros ->. simpl in Hlen. lia.
Qed.



End ResolverFacts.

Section ScopeFacts.
Import FixMissingImports.
Context {Obj : Type} (host : Host Obj).
Implicit Types (name : QualifiedName) (st : State Obj).



(** C2, as the specification states it, fails: the empty name makes the
    resolver report a diagnostic. *)
Lemma add_import_empty_name_reports :
  errors (_add_import Shadowed.host [] Shadowed.start) = [NameResolutionError []]
  ∧ _add_import Shadowed.host [] Shadowed.start ≠ Shadowed.start.
Proof.
  split; [reflexivity|].
  intros H. apply (f_equal errors) in H. discriminate H.
Qed.

(** C2, as the code has it.  For the empty qualified name the checks of
    visibility are skipped and no parent module is found: the operation
    registers no import and reports exactly one name-resolution diagnostic,
    which names the empty name. *)
Theorem add_import_empty_name st :
  _add_import host [] st = report_error (NameResolutionError []) st
  ∧ extra_imports (_add_import host [] st) = extra_imports st
  ∧ errors (_add_import host [] st) = errors st ++ [NameResolutionError []].
Proof.
  assert (H : _add_import host [] st = report_error (NameResolutionError []) st).
  { unfold _add_import, _get_parent_module. simpl. by simp parent_loop. }
  by rewrite H.
Qed.

(** C9.  An import that [_add_import] adds to the accumulator of the scope
    is a whole-module import, with no bound name, of the prefix the
    resolver chose, a proper prefix of the name that imports as a module. *)
Theorem add_import_whole_module st name (i : Import) :
  i ∈ extra_imports (_add_import host name st) →
  i ∉ extra_imports st →
  import_name i = None
  ∧ _get_parent_module host name = Some (import_origin i)
  ∧ proper_prefix (import_origin i) name
  ∧ _is_module host (import_origin i) = true.
Proof.
  unfold _add_import. intros Hin Hnew.
  destruct (locally_visible host st name); [done|].
  destruct (_get_parent_module host name) as [p|] eqn:Hp; [|done].
  simpl in Hin. apply elem_of_union in Hin as [?| ->%elem_of_singleton]; [done|].
  apply parent_loop_sound in Hp as Hsound.
  destruct Hsound as (Hne & Hpre & Hmod & _).
  simpl. split_and!; [done..| |done].
  by apply proper_prefix_parent.
Qed.

(** C3.  [handle_module] runs the passes beneath it on an empty accumulator
    with the module as the current one; on exit the imports accumulated in
    that scope are merged into the import set of the module that was
    produced, and of no other; the accumulator and the current module of
    the enclosing scope are what they were before the call, so that
    nothing resolved inside leaks into the enclosing scope. *)
Theorem handle_module_scoped_imports
    (super_handle_module : QualifiedName → Obj → State Obj → option Module * State Obj)
    (path : QualifiedName) (module : Obj) st :
  let entered := set_current_module (Some module) (set_extra_imports ∅ st) in
  let inner := super_handle_module path module entered in
  let outer := handle_module super_handle_module path module st in
  extra_imports entered = ∅
  ∧ current_module entered = Some module
  ∧ extra_imports outer.2 = extra_imports st
  ∧ current_module outer.2 = current_module st
  ∧ current_class outer.2 = current_class inner.2
  ∧ errors outer.2 = errors inner.2
  ∧ outer.1 = (λ m, set_module_imports (module_imports m ∪ extra_imports inner.2) m)
              <$> inner.1
  ∧ (∀ m i, outer.1 = Some m →
            i ∈ module_imports m ↔
            (∃ m0, inner.1 = Some m0 ∧ i ∈ module_imports m0)
            ∨ i ∈ extra_imports inner.2).
Proof.
  intros entered inner outer. subst outer. unfold handle_module.
  fold entered. fold inner. destruct inner as [result st'] eqn:Hinner.
  simpl. split_and!; try done.
  intros m i. destruct result as [m0|]; [|done]. intros [= <-]. simpl.
  rewrite elem_of_union. split.
  - intros [?|?]; [left; by exists m0|by right].
  - intros [(m1 & [= <-] & ?)|?]; [by left|by right].
Qed.

(** The nested scopes of C3 at work: the import the sub-module resolves
    ([a]) goes to the sub-module, the import the module resolves ([a.b])
    goes to the module, and the enclosing scope is left as it was. *)
Example nested_module_imports :
  let out := handle_module Shadowed.visit_top ["m"] Shadowed.member Shadowed.start in
  (elements ∘ module_imports <$> out.1) = Some [mkImport None ["a"; "b"]]
  ∧ (map (elements ∘ module_imports) ∘ module_sub_modules <$> out.1)
    = Some [[mkImport None ["a"]]]
  ∧ out.2 = Shadowed.start.
Proof. vm_compute. done. Qed.

End ScopeFacts.

Section ScopeWitnesses.
Import FixMissingImports.

Lemma add_import_whole_module_witness :
  import_name (mkImport None ["a"; "b"]) = None
  ∧ _get_parent_module Shadowed.host ["a"; "b"; "d"]
    = Some (import_origin (mkImport None ["a"; "b"]))
  ∧ proper_prefix (import_origin (mkImport None ["a"; "b"])) ["a"; "b"; "d"]
  ∧ _is_module Shadowed.host (import_origin (mkImport None ["a"; "b"])) = true.
Proof.
  apply (add_import_whole_module Shadowed.host Shadowed.start).
  - vm_compute. reflexivity.
  - unfold Shadowed.start. simpl. apply not_elem_of_empty.
Defined.

Lemma handle_module_scoped_imports_witness :
  let out := handle_module Shadowed.visit_top ["m"] Shadowed.member Shadowed.start in
  extra_imports out.2 = extra_imports Shadowed.start
  ∧ current_module out.2 = current_module Shadowed.start.
Proof.
  intros out.
  pose proof (handle_module_scoped_imports
                Shadowed.visit_top ["m"] Shadowed.member Shadowed.start) as H.
  cbv zeta in H. destruct H as (_ & _ & H1 & H2 & _). by split.
Defined.

End ScopeWitnesses.

(** ** [FixTypingTypeNames]: the canonical typing names *)

Section TypingNames.
Import FixTypingTypeNames.

Lemma typing_path_of_name (word : Identifier) :
  word ∈ __typing_names →
  from_str ("typing." ++ capitalized word) = ["typing"; capitalized word].
Proof.
  unfold __typing_names. intros H.
  repeat (apply elem_of_cons in H as [->|H]; [reflexivity|]).
  by apply elem_of_nil in H.
Qed.

Lemma typing_not_a_typing_name : bool_decide ("typing" ∈ __typing_names) = false.
Proof. reflexivity. Qed.

(** C4, as the specification states it, fails: the segment [Item] after
    the head [Set] is dropped, where the claim keeps it. *)
Lemma parse_annotation_str_drops_tail :
  parse_annotation_str
    (ResolvedType ["Set"; "Item"] (Some [ResolvedType ["int"] None]))
  = Returned (ResolvedType ["typing"; "Set"] (Some [ResolvedType ["int"] None]))
  ∧ parse_annotation_str
      (ResolvedType ["Set"; "Item"] (Some [ResolvedType ["int"] None]))
    ≠ Returned (ResolvedType ["typing"; "Set"; "Item"]
                             (Some [ResolvedType ["int"] None])).
Proof. split; [reflexivity|discriminate]. Qed.

(** C4, as the code has it.  For a resolved type whose head segment is one
    of the shorthand names, the pass replaces the whole qualified name by
    the two-segment path [typing.<Head>], the head capitalized: the
    segments after the head are dropped, and the parameter list is left
    unchanged. *)
Theorem parse_annotation_str_typing_name
    (word : Identifier) (tail : QualifiedName)
    (parameters : option (list Annotation)) :
  word ∈ __typing_names →
  parse_annotation_str (ResolvedType (word :: tail) parameters)
  = Returned (ResolvedType ["typing"; capitalized word] parameters).
Proof.
  intros H. unfold parse_annotation_str.
  rewrite (bool_decide_eq_true_2 _ H).
  by rewrite typing_path_of_name.
Qed.

Lemma parse_annotation_str_typing_name_witness :
  parse_annotation_str
    (ResolvedType ["iterator"; "Item"] (Some [ResolvedType ["int"] None]))
  = Returned (ResolvedType ["typing"; "Iterator"] (Some [ResolvedType ["int"] None])).
Proof.
  apply (parse_annotation_str_typing_name "iterator" ["Item"]).
  apply (bool_decide_unpack _). vm_compute. exact I.
Defined.

(** C5.  The rewrite is idempotent: on a resolved type with a non-empty
    name the pass returns, and applied to what it returned it returns the
    same; a name whose head is [typing] is returned as it is. *)
Theorem parse_annotation_str_idempotent
    (name : QualifiedName) (parameters : option (list Annotation)) :
  name ≠ [] →
  ∃ a, parse_annotation_str (ResolvedType name parameters) = Returned a
       ∧ parse_annotation_str a = Returned a
       ∧ (head name = Some "typing" → a = ResolvedType name parameters).
Proof.
  destruct name as [|word tail]; [done|]. intros _. simpl.
  destruct (bool_decide (word ∈ __typing_names)) eqn:Hword.
  - apply bool_decide_eq_true_1 in Hword as Hin.
    rewrite typing_path_of_name by done.
    eexists. split_and!; [done| |].
    + unfold parse_annotation_str. by rewrite typing_not_a_typing_name.
    + intros [= ->]. by rewrite typing_not_a_typing_name in Hword.
  - eexists. split_and!; [done| |done]. unfold parse_annotation_str. by rewrite Hword.
Qed.

Lemma parse_annotation_str_idempotent_witness :
  ∃ a, parse_annotation_str (ResolvedType ["sequence"] None) = Returned a
       ∧ parse_annotation_str a = Returned a
       ∧ (head ["sequence"] = Some "typing" → a = ResolvedType ["sequence"] None).
Proof. apply (parse_annotation_str_idempotent ["sequence"] None). done. Defined.

End TypingNames.

(** ** [ReplaceReadWritePropertyWithField] *)

Section PropertyCollapse.
Import ReplaceReadWritePropertyWithField.

Lemma is_read_write_field_spec (result : Property) (getter setter : Function) :
  prop_getter result = Some getter →
  prop_setter result = Some setter →
  is_read_write_field result = true ↔ read_write_pair getter setter.
Proof.
  intros Hg Hs. unfold is_read_write_field, read_write_pair. rewrite Hg, Hs.
  destruct (func_args getter) as [|self_g [|? ?]];
    destruct (func_args setter) as [|self_s [|value_arg [|? ?]]]; simpl;
    try (split; [done|intros (? & ? & ? & ? & ? & ?); done]).
  rewrite bool_decide_eq_true. split.
  - intros ?. by exists self_g, self_s, value_arg.
  - intros (? & ? & ? & [= <-] & [= <- <-] & ?). done.
Qed.

(** C6.  A property with a getter and a setter is replaced by a field
    exactly when the getter takes the receiver only, the setter takes the
    receiver and one value, and the return annotation of the getter equals
    the annotation of that value; the field has the name of the property
    and that annotation.  Otherwise the property is returned unchanged. *)
Theorem handle_class_member_collapses
    (result : Property) (getter setter : Function) :
  prop_getter result = Some getter →
  prop_setter result = Some setter →
  (read_write_pair getter setter →
   handle_class_member (Some (OfProperty result))
   = Some (OfField (mkField (mkAttribute (prop_name result) None
                                         (func_returns getter)) None)))
  ∧ (¬ read_write_pair getter setter →
     handle_class_member (Some (OfProperty result)) = Some (OfProperty result))
  ∧ (read_write_pair getter setter ↔
     ∃ field, handle_class_member (Some (OfProperty result)) = Some (OfField field)).
Proof.
  intros Hg Hs.
  pose proof (is_read_write_field_spec result getter setter Hg Hs) as Hspec.
  unfold handle_class_member.
  destruct (is_read_write_field result); rewrite ?Hg.
  - split_and!; [done| |].
    + intros []. by apply Hspec.
    + split; [eauto|]. intros _. by apply Hspec.
  - split_and!.
    + intros [=]%Hspec.
    + done.
    + split; [intros [=]%Hspec|]. intros [? [=]].
Qed.

End PropertyCollapse.

Section PropertyCollapseExamples.
Import ReplaceReadWritePropertyWithField PropertyExamples.

Lemma handle_class_member_collapses_witness :
  handle_class_member (Some (OfProperty (property_x (setter_of int_type))))
  = Some (OfField (mkField (mkAttribute "x" None (Some int_type)) None)).
Proof.
  apply (handle_class_member_collapses
           (property_x (setter_of int_type)) getter_int (setter_of int_type));
    [reflexivity|reflexivity|].
  exists self_arg, self_arg, (mkArgument (Some "arg0") (Some int_type)). done.
Defined.

(** The getter [() -> int] with the setter [(str) -> None] stays a
    property. *)
Example property_int_str_not_collapsed :
  handle_class_member (Some (OfProperty (property_x (setter_of str_type))))
  = Some (OfProperty (property_x (setter_of str_type))).
Proof. reflexivity. Qed.

End PropertyCollapseExamples.

(** ** [FixMissing__all__Attribute] *)

Section ExportList.
Import FixMissing__all__Attribute.
Variable handle_value : list string → Value.

Lemma elem_of_member_names (result : Module) (n : string) :
  n ∈ member_names result ↔ names_member result n.
Proof.
  unfold member_names, names_member.
  rewrite !elem_of_app, !list_elem_of_fmap, list_elem_of_omap.
  setoid_rewrite elem_of_elements. naive_solver.
Qed.

Lemma startswith_underscore_spec (n : string) :
  startswith_underscore n = true ↔ underscore_prefixed n.
Proof.
  unfold startswith_underscore, underscore_prefixed.
  destruct n as [|c n].
  - split; [done|]. by intros [? ?].
  - change (String.prefix "_" (String c n))
      with (if ascii_dec "_" c then String.prefix "" n else false).
    destruct (ascii_dec "_" c) as [Heq|Hc].
    + subst c. split; [by exists n|]. by destruct n.
    + split; [done|]. intros [? [= Heq _]]. by destruct Hc.
Qed.


Lemma elem_of_all_names (result : Module) (n : string) :
  n ∈ all_names result ↔ names_member result n ∧ ¬ underscore_prefixed n.
Proof.
  unfold all_names. rewrite merge_sort_Permutation.
  rewrite elem_of_elements, elem_of_list_to_set, list_elem_of_In, filter_In.
  rewrite <- list_elem_of_In, elem_of_member_names, negb_true_iff.
  rewrite <- startswith_underscore_spec.
  destruct (startswith_underscore n); naive_solver.
Qed.


End ExportList.

Section ExportListExamples.
Import FixMissing__all__Attribute ExportExamples.


(** The module with the classes [A] and [B] and the function [f] gets
    exactly [["A"; "B"; "f"]]: the hidden class is left out, the import of
    [A] adds no duplicate. *)
Example shapes_export_list :
  all_names shapes = ["A"; "B"; "f"]
  ∧ (last ∘ module_attributes <$> handle_module render_names (Some shapes))
    = Some (Some (mkAttribute "__all__" (Some (mkValue "['A', 'B', 'f']")) None)).
Proof. vm_compute. done. Qed.

End ExportListExamples.

(** ** [FixMissingEnumMembersAnnotation] *)

Section EnumMembers.
Import FixMissingEnumMembersAnnotation.
Context {Obj : Type}.
Variable as_dict : Obj → option (list (Obj * Obj)).
Variable handle_type_of : Obj → QualifiedName.
Variable parse_annotation_str : string → Annotation.

#[local] Abbreviation guess := (_guess_dict_type handle_type_of parse_annotation_str).
#[local] Abbreviation handle := (handle_field as_dict handle_type_of parse_annotation_str).

Lemma last_is_Some (path : QualifiedName) : path ≠ [] → is_Some (last path).
Proof.
  destruct path as [|x path _] using rev_ind; [done|].
  intros _. rewrite last_snoc. by eexists.
Qed.

Lemma guess_dict_type_shape (d : list (Obj * Obj)) (t : Annotation) :
  guess d = Returned (Some t) →
  d ≠ [] ∧ ∃ dict_name key_type value_type,
             t = ResolvedType dict_name (Some [key_type; value_type]).
Proof.
  unfold _guess_dict_type. destruct d as [|kv d]; [by simpl|].
  change (length (kv :: d) =? 0)%nat with false. cbv iota.
  intros H. split; [done|].
  unfold mbind, Outcome_bind in H.
  destruct (observed_type _ _) as [key_type|]; [|done].
  destruct (observed_type _ _) as [value_type|]; [|done].
  destruct (resolved_name _) as [dict_name|]; [|done].
  injection H as <-. by eexists _, _, _.
Qed.

(** C10.  When the mapping behind the field is empty, the field is
    returned as it is, annotation included.  The pass changes the field
    only when the path ends in [__members__], the annotation is
    [typing.ClassVar[dict]] and the mapping has at least one entry: the
    parameter [dict] is then replaced by a mapping type with a key and a
    value parameter. *)
Theorem handle_field_members
    (path : QualifiedName) (field : Obj) (result : Field) :
  (path ≠ [] → as_dict field = Some [] →
   handle path field (Some result) = Returned (Some result))
  ∧ (∀ result', handle path field (Some result) = Returned (Some result') →
       result' ≠ result →
       ∃ d dict_name key_type value_type,
         as_dict field = Some d ∧ d ≠ []
         ∧ last path = Some "__members__"
         ∧ attr_annotation (field_attribute result) = Some __class_var_dict
         ∧ guess d = Returned (Some (ResolvedType dict_name
                                       (Some [key_type; value_type])))
         ∧ result' = set_field_annotation
                       (Some (ResolvedType ["typing"; "ClassVar"]
                                (Some [ResolvedType dict_name
                                         (Some [key_type; value_type])])))
                       result).
Proof.
  split.
  - intros [name Hname]%last_is_Some Hd. unfold handle_field.
    rewrite Hname, Hd. by destruct (_ && _).
  - intros result'. unfold handle_field.
    destruct (last path) as [name|]; [|done].
    destruct (as_dict field) as [d|]; [|by intros [= ->]].
    destruct (String.eqb name "__members__") eqn:Hname; [|by intros [= ->]].
    destruct (bool_decide _) eqn:Hann; [|by intros [= ->]].
    apply String.eqb_eq in Hname as ->.
    apply bool_decide_eq_true_1 in Hann. simpl.
    destruct (guess d) as [[t|]|] eqn:Hguess; simpl; [|by intros [= ->]|done].
    intros [= <-] _.
    apply guess_dict_type_shape in Hguess as Hshape.
    destruct Hshape as (Hd & dict_name & key_type & value_type & ->).
    exists d, dict_name, key_type, value_type.
    split_and!; [done..|]. by rewrite Hann.
Qed.

End EnumMembers.

Section EnumMembersExamples.
Import FixMissingEnumMembersAnnotation LiveValues.

Lemma handle_field_members_witness :
  handle_field as_dict handle_type_of parse_annotation_str
    ["Colour"; "__members__"] (Dict []) (Some members_field)
  = Returned (Some members_field).
Proof.
  apply (handle_field_members as_dict handle_type_of parse_annotation_str
           ["Colour"; "__members__"] (Dict []) members_field);
    [done|reflexivity].
Defined.

(** The mapping [{"RED": 0, "GREEN": 1}] gives
    [typing.ClassVar[typing.Dict[str, int]]]. *)
Example colours_members_annotation :
  handle_field as_dict handle_type_of parse_annotation_str
    ["Colour"; "__members__"] colours (Some members_field)
  = Returned (Some (set_field_annotation
       (Some (ResolvedType ["typing"; "ClassVar"]
                (Some [ResolvedType ["typing"; "Dict"]
                         (Some [ResolvedType ["str"] None;
                                ResolvedType ["int"] None])])))
       members_field)).
Proof. vm_compute. reflexivity. Qed.

End EnumMembersExamples.

(** ** Regular expressions: the matcher *)

Section MatcherFacts.
Import Re.
Context {R : Type}.
Implicit Types (s rest w : list N) (caps : captures) (k : @cont R).

Lemma strip_prefix_app (t s : list N) : strip_prefix t (t ++ s) = Some s.
Proof.
  induction t as [|c t IH]; simpl; [by destruct s|].
  by rewrite N.eqb_refl.
Qed.

Lemma rmatch_Lit (t : list N) s caps k :
  rmatch (Lit t) (t ++ s) caps k = k s caps.
Proof. simpl. by rewrite strip_prefix_app. Qed.

Lemma rmatch_Lit_mismatch (t : list N) s caps k :
  strip_prefix t s = None → rmatch (Lit t) s caps k = None.
Proof. simpl. by intros ->. Qed.

Lemma rmatch_Lit_single (a c : N) s caps k :
  rmatch (Lit [a]) (c :: s) caps k = if (a =? c)%N then k s caps else None.
Proof. simpl. by destruct (a =? c)%N. Qed.

Lemma rmatch_Class_cons (p : N → bool) (c : N) s caps k :
  rmatch (Class p) (c :: s) caps k = if p c then k s caps else None.
Proof. reflexivity. Qed.

Lemma rmatch_Class_stop (p : N → bool) s caps k :
  match s with [] => True | c :: _ => p c = false end →
  rmatch (Class p) s caps k = None.
Proof. destruct s as [|c s]; simpl; [done|]. by intros ->. Qed.

Lemma rmatch_Seq (r1 r2 : regex) s caps k :
  rmatch (Seq r1 r2) s caps k
  = rmatch r1 s caps (λ s' caps', rmatch r2 s' caps' k).
Proof. reflexivity. Qed.

Lemma rmatch_Star (r : regex) s caps k :
  rmatch (Star r) s caps k = star_loop (rmatch r) (length s) s caps k.
Proof. reflexivity. Qed.

Lemma rmatch_Group (name : string) (r : regex) s caps k :
  rmatch (Group name r) s caps k
  = rmatch r s caps (λ s' caps',
      k s' ((name, take (length s - length s') s) :: caps')).
Proof. reflexivity. Qed.

Lemma rmatch_Plus_Class (p : N → bool) (c : N) s caps k :
  p c = true →
  rmatch (Plus (Class p)) (c :: s) caps k
  = star_loop (rmatch (Class p)) (length s) s caps k.
Proof. intros Hc. unfold Plus. rewrite rmatch_Seq, rmatch_Class_cons, Hc. done. Qed.

(** A greedy repetition of a character set takes the longest run first:
    when the continuation accepts what follows the run, that is the
    result. *)
Lemma star_class_greedy (p : N → bool) w rest caps k (n : nat) (res : R) :
  Forall (λ c, p c = true) w →
  match rest with [] => True | c :: _ => p c = false end →
  (length w ≤ n)%nat →
  k rest caps = Some res →
  star_loop (rmatch (Class p)) n (w ++ rest) caps k = Some res.
Proof.
  intros Hw Hstop. revert n.
  induction Hw as [|c w Hc Hw IH]; intros n Hn Hk.
  - change ([] ++ rest) with rest. destruct n as [|n]; cbn [star_loop]; [done|].
    by rewrite rmatch_Class_stop, Hk.
  - change ((c :: w) ++ rest) with (c :: w ++ rest).
    destruct n as [|n]; simpl in Hn; [lia|]. cbn [star_loop].
    rewrite rmatch_Class_cons, Hc.
    assert (Hlt : (length (w ++ rest) <? length (c :: w ++ rest))%nat = true).
    { apply Nat.ltb_lt. simpl. lia. }
    rewrite Hlt, IH; [done|lia|done].
Qed.

(** When the continuation rejects what follows every prefix of the run,
    the repetition fails. *)
Lemma star_class_fail (p : N → bool) w rest caps k (n : nat) :
  Forall (λ c, p c = true) w →
  match rest with [] => True | c :: _ => p c = false end →
  (∀ j, (j ≤ length w)%nat → k (drop j w ++ rest) caps = None) →
  star_loop (rmatch (Class p)) n (w ++ rest) caps k = None.
Proof.
  intros Hw Hstop. revert n.
  induction Hw as [|c w Hc Hw IH]; intros n Hk.
  - specialize (Hk 0 (le_n _)). simpl in Hk. change ([] ++ rest) with rest.
    destruct n as [|n]; cbn [star_loop]; [done|].
    by rewrite rmatch_Class_stop, Hk.
  - pose proof (Hk 0 (Nat.le_0_l _)) as Hk0. simpl in Hk0.
    change ((c :: w) ++ rest) with (c :: w ++ rest).
    destruct n as [|n]; [done|]. cbn [star_loop].
    rewrite rmatch_Class_cons, Hc.
    assert (Hlt : (length (w ++ rest) <? length (c :: w ++ rest))%nat = true).
    { apply Nat.ltb_lt. simpl. lia. }
    rewrite Hlt, IH, Hk0; [done|].
    intros j Hj. apply (Hk (S j)). simpl. lia.
Qed.

(** A match whose continuation always fails, fails. *)
Lemma star_loop_fails (m : list N → captures → @cont R → option R) (n : nat)
    s caps k :
  (∀ s caps k, (∀ s' caps', k s' caps' = None) → m s caps k = None) →
  (∀ s' caps', k s' caps' = None) →
  star_loop m n s caps k = None.
Proof.
  intros Hm Hk. revert s caps.
  induction n as [|n IH]; intros s caps; cbn [star_loop]; [done|].
  rewrite Hm, Hk; [done|]. intros s' caps'.
  destruct (_ <? _)%nat; [apply IH|done].
Qed.

Lemma rmatch_fails (r : regex) s caps k :
  (∀ s' caps', k s' caps' = None) → rmatch r s caps k = None.
Proof.
  revert s caps k.
  induction r as [t|p|r1 IH1 r2 IH2|r IH|name r IH]; intros s caps k Hk.
  - simpl. by destruct (strip_prefix t s).
  - simpl. destruct s as [|c s]; [done|]. by destruct (p c).
  - rewrite rmatch_Seq. apply IH1. intros s' caps'. by apply IH2.
  - rewrite rmatch_Star. by apply star_loop_fails.
  - rewrite rmatch_Group. by apply IH.
Qed.

End MatcherFacts.

(** ** Regular expressions: a match does not reach across a [<] *)

Section Locality.
Import Re.
Variable tail : list N.
Implicit Types (s w : list N) (caps : captures)
  (k : @cont (captures * list N)).

#[local] Abbreviation rest := (bracket :: tail).
#[local] Abbreviation follows := (continues rest).

Lemma strip_prefix_local (t s : list N) :
  Forall (λ c, c ≠ bracket) t →
  strip_prefix t (s ++ rest) = (λ s', s' ++ rest) <$> strip_prefix t s.
Proof.
  intros Ht. revert s. induction Ht as [|c t Hc _ IH]; intros s; [done|].
  destruct s as [|d s]; simpl.
  - by destruct (N.eqb_spec c bracket).
  - destruct (c =? d)%N; [apply IH|done].
Qed.

Lemma star_loop_local
    (m : list N → captures → @cont (captures * list N)
         → option (captures * list N)) :
  (∀ s caps k k', follows k k' →
     m (s ++ rest) caps k' = followed_by rest <$> m s caps k) →
  (∀ s caps k, (∀ s' caps', k s' caps' = None) → m s caps k = None) →
  ∀ (n n' : nat) s caps k k',
    (length s ≤ n)%nat → (length s ≤ n')%nat → follows k k' →
    star_loop m n' (s ++ rest) caps k'
    = followed_by rest <$> star_loop m n s caps k.
Proof.
  intros Hm Hfail n. induction n as [|n IH]; intros n' s caps k k' Hn Hn' Hk.
  - destruct s as [|? ?]; [|simpl in Hn; lia]. cbn [star_loop].
    destruct n' as [|n']; cbn [star_loop]; [apply (Hk [])|].
    rewrite (Hm [] caps (λ _ _, None)).
    + rewrite Hfail by done. apply (Hk []).
    + intros s' caps'. simpl.
      rewrite (proj2 (Nat.ltb_ge _ _)); [done|].
      rewrite length_app. simpl. lia.
  - cbn [star_loop]. destruct n' as [|n'].
    + destruct s as [|? ?]; [|simpl in Hn'; lia]. cbn [star_loop].
      rewrite Hfail; [apply (Hk [])|]. by intros s' caps'.
    + cbn [star_loop].
      rewrite (Hm s caps
                 (λ s' caps', if (length s' <? length s)%nat
                              then star_loop m n s' caps' k else None)).
      * destruct (m s caps _) as [res|]; [done|]. apply Hk.
      * intros s' caps'. rewrite !length_app.
        destruct (Nat.ltb_spec (length s') (length s)) as [Hlt|Hge].
        -- rewrite (proj2 (Nat.ltb_lt _ _)) by lia. apply IH; [lia..|done].
        -- by rewrite (proj2 (Nat.ltb_ge _ _)) by lia.
Qed.

(** What an expression without [<] matches in [s ++ rest] is what it
    matches in [s]. *)
Lemma rmatch_local (r : regex) :
  bracket_free r →
  ∀ s caps k k', follows k k' →
    rmatch r (s ++ rest) caps k' = followed_by rest <$> rmatch r s caps k.
Proof.
  induction r as [t|p|r1 IH1 r2 IH2|r IH|name r IH]; simpl bracket_free;
    intros Hfree s caps k k' Hk.
  - cbn [rmatch]. rewrite strip_prefix_local by done.
    destruct (strip_prefix t s) as [s'|]; [apply Hk|done].
  - destruct s as [|c s]; cbn [rmatch app].
    + by rewrite Hfree.
    + destruct (p c); [apply Hk|done].
  - destruct Hfree as [Hfree1 Hfree2]. rewrite !rmatch_Seq.
    apply IH1; [done|]. intros s' caps'. by apply IH2.
  - rewrite !rmatch_Star.
    apply star_loop_local;
      [by apply IH|apply rmatch_fails|lia|rewrite length_app; lia|done].
  - rewrite !rmatch_Group. apply IH; [done|]. intros s' caps'.
    rewrite Hk. rewrite !length_app.
    replace (length s + length rest - (length s' + length rest))
      with (length s - length s') by lia.
    by rewrite take_app_le by lia.
Qed.

End Locality.

(** ** [FixValueReprRandomAddress] *)

(** Case analysis on the comparisons of code points in the goal. *)
Ltac split_N :=
  repeat match goal with
  | |- context [(?a <=? ?b)%N] => destruct (N.leb_spec a b); try lia
  | |- context [(?a <? ?b)%N] => destruct (N.ltb_spec a b); try lia
  | |- context [(?a =? ?b)%N] => destruct (N.eqb_spec a b); try lia
  end.

Section AddressFacts.
Import Re FixValueReprRandomAddress.
Variable u : Unicode.
Implicit Types (s rest w name hex before after : list N) (caps : captures).

#[local] Abbreviation capsule :=
  (Group "capsule" (Seq (Plus (Class (is_word u))) (Class (is_space u)))).
#[local] Abbreviation address_tail :=
  (Seq (Lit (text "at "))
     (Seq (Group "address" (Seq (Lit (text "0x")) (Plus (Class hex_char))))
          (Lit (text ">")))).
#[local] Abbreviation finish :=
  (λ (s' : list N) (caps' : captures), Some (caps', s')).
#[local] Abbreviation after_capsules :=
  (λ (s' : list N) (caps' : captures), rmatch address_tail s' caps' finish).

Lemma hex_is_word (c : N) : hex_char c = true → is_word u c = true.
Proof.
  unfold hex_char, is_word, is_digit, in_range. split_N; simpl; congruence.
Qed.

Lemma hex_not_space (c : N) : hex_char c = true → is_space u c = false.
Proof.
  unfold hex_char, is_space, is_digit, in_range. split_N; simpl; congruence.
Qed.

Lemma space_not_word (c : N) :
  disjoint u → is_space u c = true → is_word u c = false.
Proof.
  intros Hu. unfold is_space, is_word, is_digit, in_range.
  destruct (N.ltb_spec c 128); [|apply Hu].
  split_N; simpl; congruence.
Qed.

Lemma head_drop_app (P : N → Prop) w rest (j : nat) :
  Forall P w →
  match rest with [] => True | c :: _ => P c end →
  match drop j w ++ rest with [] => True | c :: _ => P c end.
Proof.
  intros Hw Hrest. revert j.
  induction Hw as [|c w Hc Hw IH]; intros j.
  - by rewrite drop_nil.
  - destruct j as [|j]; simpl; [done|]. apply IH.
Qed.

Lemma take_app_sub w rest : take (length (w ++ rest) - length rest) (w ++ rest) = w.
Proof.
  rewrite length_app, Nat.add_sub. apply take_app_length.
Qed.

Lemma address_tail_match hex after caps :
  hex ≠ [] → Forall (λ c, hex_char c = true) hex →
  ∃ addr,
    rmatch address_tail (text "at " ++ text "0x" ++ hex ++ text ">" ++ after)
           caps finish
    = Some (("address", addr) :: caps, after).
Proof.
  intros Hne Hhex. destruct Hhex as [|h hex Hh Hhex]; [done|].
  rewrite rmatch_Seq, rmatch_Lit, rmatch_Seq, rmatch_Group, rmatch_Seq, rmatch_Lit.
  change ((h :: hex) ++ text ">" ++ after) with (h :: hex ++ text ">" ++ after).
  rewrite (rmatch_Plus_Class _ _ _ _ _ Hh).
  eexists. apply star_class_greedy; [done|reflexivity| |].
  - rewrite length_app. lia.
  - by rewrite rmatch_Lit.
Qed.

Lemma after_capsules_at_address hex after caps :
  after_capsules (text "0x" ++ hex ++ text ">" ++ after) caps = None.
Proof. cbv beta. rewrite rmatch_Seq. by apply rmatch_Lit_mismatch. Qed.

Lemma no_capsule_at_address hex after caps (n : nat) :
  Forall (λ c, hex_char c = true) hex →
  star_loop (rmatch capsule) n (text "0x" ++ hex ++ text ">" ++ after)
            caps after_capsules = None.
Proof.
  intros Hhex. destruct n as [|n]; cbn [star_loop].
  { apply after_capsules_at_address. }
  rewrite after_capsules_at_address.
  rewrite rmatch_Group, rmatch_Seq.
  change (text "0x" ++ hex ++ text ">" ++ after)
    with (48%N :: (120%N :: hex) ++ text ">" ++ after).
  rewrite rmatch_Plus_Class by reflexivity.
  assert (Hword : Forall (λ c, is_word u c = true) (120%N :: hex)).
  { constructor; [reflexivity|]. eapply Forall_impl; [done|]. apply hex_is_word. }
  rewrite star_class_fail; [done|done|reflexivity|].
  intros j _. apply rmatch_Class_stop.
  apply (head_drop_app (λ c, is_space u c = false)); [|reflexivity].
  constructor; [reflexivity|]. eapply Forall_impl; [done|]. apply hex_not_space.
Qed.

Lemma capsules_match (extras : list (list N * N)) hex after caps (n : nat) :
  disjoint u →
  Forall (extra_word u) extras →
  hex ≠ [] → Forall (λ c, hex_char c = true) hex →
  (length (extra_words extras ++ text "at " ++ text "0x" ++ hex
           ++ text ">" ++ after) ≤ n)%nat →
  ∃ caps',
    star_loop (rmatch capsule) n
      (extra_words extras ++ text "at " ++ text "0x" ++ hex ++ text ">" ++ after)
      caps after_capsules
    = Some (caps', after)
    ∧ group "name" caps' = group "name" caps.
Proof.
  intros Hu Hextras Hne Hhex. revert caps n.
  induction Hextras as [|[w sp] extras (Hw & Hword & Hsp) _ IH]; intros caps n Hn.
  - change (extra_words [] ++ ?x) with x in *.
    destruct n as [|n]; [simpl in Hn; lia|]. cbn [star_loop].
    destruct (address_tail_match hex after caps Hne Hhex) as [addr Haddr].
    rewrite Haddr.
    rewrite rmatch_Group, rmatch_Seq.
    change (text "at " ++ text "0x" ++ hex ++ text ">" ++ after)
      with (97%N :: [116%N]
            ++ 32%N :: text "0x" ++ hex ++ text ">" ++ after).
    rewrite rmatch_Plus_Class by reflexivity.
    rewrite star_class_fail; [by eexists|by repeat constructor|reflexivity|].
    intros [|[|j]] Hj; [reflexivity| |simpl in Hj; lia].
    change (drop 1 [116%N] ++ ?x) with x.
    rewrite rmatch_Class_cons. change (is_space u 32) with true. cbv iota beta.
    rewrite no_capsule_at_address by done. by destruct (_ <? _)%nat.
  - simpl in Hw, Hword, Hsp.
    destruct Hword as [|c w Hc Hword]; [done|].
    assert (Hs : extra_words ((c :: w, sp) :: extras) ++ text "at " ++ text "0x"
                 ++ hex ++ text ">" ++ after
                 = c :: w ++ sp :: extra_words extras ++ text "at " ++ text "0x"
                   ++ hex ++ text ">" ++ after).
    { unfold extra_words. simpl. by rewrite <- !app_assoc. }
    rewrite Hs in *. clear Hs.
    destruct n as [|n]; [simpl in Hn; lia|]. cbn [star_loop].
    rewrite rmatch_Group, rmatch_Seq, (rmatch_Plus_Class _ _ _ _ _ Hc).
    set (rest := extra_words extras ++ text "at " ++ text "0x" ++ hex
                 ++ text ">" ++ after) in *.
    set (cap := ("capsule", take (length (c :: w ++ sp :: rest) - length rest)
                                 (c :: w ++ sp :: rest))).
    destruct (IH (cap :: caps) n) as (caps' & Hloop & Hname).
    { simpl in Hn. rewrite length_app in Hn. simpl in Hn. lia. }
    exists caps'. split; [|done].
    erewrite star_class_greedy; [done|done| | |].
    + simpl. by apply space_not_word.
    + rewrite length_app. lia.
    + rewrite rmatch_Class_cons, Hsp.
      assert (Hlt : (length rest <? length (c :: w ++ sp :: rest))%nat = true).
      { apply Nat.ltb_lt. simpl. rewrite length_app. simpl. lia. }
      rewrite Hlt. exact Hloop.
Qed.

Lemma match_here_address name (extras : list (list N * N)) hex after :
  disjoint u →
  name ≠ [] → Forall (λ c, name_char u c = true) name →
  Forall (extra_word u) extras →
  hex ≠ [] → Forall (λ c, hex_char c = true) hex →
  ∃ caps,
    match_here (_pattern u) (repr_with_address name extras hex ++ after)
    = Some (caps, after)
    ∧ group "name" caps = Some name.
Proof.
  intros Hu Hne Hname Hextras Hhexne Hhex.
  destruct Hname as [|c name Hc Hname]; [done|].
  unfold match_here, _pattern, repr_with_address. rewrite <- !app_assoc.
  rewrite rmatch_Seq, rmatch_Lit, rmatch_Seq, rmatch_Group.
  change ((c :: name) ++ ?x) with (c :: name ++ x).
  rewrite (rmatch_Plus_Class _ _ _ _ _ Hc).
  set (rest := extra_words extras ++ text "at " ++ text "0x" ++ hex
               ++ text ">" ++ after).
  destruct (capsules_match extras hex after
              [("name", take (length (c :: name ++ text " object " ++ rest)
                              - length (text " object " ++ rest))
                             (c :: name ++ text " object " ++ rest))]
              (length rest) Hu Hextras Hhexne Hhex (le_n _))
    as (caps' & Hloop & Hgroup).
  exists caps'. split.
  - apply star_class_greedy; [done|reflexivity| |].
    + rewrite length_app. lia.
    + rewrite rmatch_Seq, rmatch_Lit, rmatch_Seq, rmatch_Star. exact Hloop.
  - rewrite Hgroup. simpl group. f_equal.
    apply (take_app_sub (c :: name) (text " object " ++ rest)).
Qed.

Lemma pattern_tail_bracket_free :
  bracket_free
    (Seq (Group "name" (Plus (Class (name_char u))))
    (Seq (Lit (text " object "))
    (Seq (Star capsule) address_tail))).
Proof. simpl. split_and!; try reflexivity; repeat constructor; discriminate. Qed.

(** At a place before a [<], the pattern matches in the whole text what
    it matches in the text up to that [<]. *)
Lemma match_here_local s (tail : list N) :
  s ≠ [] →
  match_here (_pattern u) (s ++ bracket :: tail)
  = followed_by (bracket :: tail) <$> match_here (_pattern u) s.
Proof.
  destruct s as [|c s]; [done|]. intros _.
  unfold match_here, _pattern.
  change ((c :: s) ++ ?x) with (c :: s ++ x).
  change (text "<") with [bracket].
  rewrite (rmatch_Seq _ _ (c :: s ++ _)), (rmatch_Seq _ _ (c :: s)).
  rewrite !rmatch_Lit_single.
  destruct (bracket =? c)%N; [|done].
  by apply rmatch_local; [apply pattern_tail_bracket_free|].
Qed.

End AddressFacts.

Section Substitution.
Import Re FixValueReprRandomAddress.
Variable u : Unicode.
Implicit Types (s rest name hex before after : list N).

Lemma sub_loop_fuel (r : regex) (template : list piece) (n m : nat) s :
  length s < n → length s < m →
  sub_loop n r template s = sub_loop m r template s.
Proof.
  revert m s. induction n as [|n IH]; intros [|m] s Hn Hm; [lia..|].
  cbn [sub_loop].
  assert (Htail : match s with
                  | [] => []
                  | c :: s' => c :: sub_loop n r template s'
                  end
                  = match s with
                    | [] => []
                    | c :: s' => c :: sub_loop m r template s'
                    end).
  { destruct s as [|c s]; [done|]. simpl in Hn, Hm. f_equal. apply IH; lia. }
  destruct (match_here r s) as [[caps rest]|]; [|done].
  destruct (length rest <? length s)%nat eqn:Hlt; [|by rewrite Htail].
  apply Nat.ltb_lt in Hlt. f_equal. apply IH; lia.
Qed.

Lemma sub_loop_S (r : regex) (template : list piece) (n : nat) s :
  sub_loop (S n) r template s
  = match match_here r s with
    | Some (caps, rest) =>
        expand template caps
        ++ (if (length rest <? length s)%nat
            then sub_loop n r template rest
            else match s with
                 | [] => []
                 | c :: s' => c :: sub_loop n r template s'
                 end)
    | None =>
        match s with
        | [] => []
        | c :: s' => c :: sub_loop n r template s'
        end
    end.
Proof. reflexivity. Qed.

(** One step of the scan. *)
Lemma sub_step (r : regex) (template : list piece) s :
  sub r template s
  = match match_here r s with
    | Some (caps, rest) =>
        expand template caps
        ++ (if (length rest <? length s)%nat
            then sub r template rest
            else match s with
                 | [] => []
                 | c :: s' => c :: sub r template s'
                 end)
    | None =>
        match s with
        | [] => []
        | c :: s' => c :: sub r template s'
        end
    end.
Proof.
  unfold sub. rewrite (sub_loop_S r template (length s) s).
  destruct (match_here r s) as [[caps rest]|].
  - destruct (Nat.ltb_spec (length rest) (length s)) as [Hlt|_].
    + f_equal. apply sub_loop_fuel; lia.
    + by destruct s.
  - by destruct s.
Qed.

Lemma sub_cons_no_match (r : regex) (template : list piece) (c : N) s :
  match_here r (c :: s) = None →
  sub r template (c :: s) = c :: sub r template s.
Proof. intros Hnone. by rewrite sub_step, Hnone. Qed.

Lemma sub_match (r : regex) (template : list piece) s (caps : captures) rest :
  match_here r s = Some (caps, rest) →
  length rest < length s →
  sub r template s = expand template caps ++ sub r template rest.
Proof.
  intros Hmatch Hlt. rewrite sub_step, Hmatch.
  by rewrite (proj2 (Nat.ltb_lt _ _) Hlt).
Qed.

Lemma sub_loop_no_match (r : regex) (template : list piece) (n : nat) s :
  (∀ k, match_here r (drop k s) = None) →
  sub_loop n r template s = s.
Proof.
  revert s. induction n as [|n IH]; intros s Hnone; [done|].
  pose proof (Hnone 0) as H0. rewrite drop_0 in H0.
  rewrite sub_loop_S, H0. destruct s as [|c s]; [done|].
  f_equal. apply IH. intros k. apply (Hnone (S k)).
Qed.

Lemma match_here_not_bracket (c : N) s :
  c ≠ bracket → match_here (_pattern u) (c :: s) = None.
Proof.
  intros Hc. unfold match_here, _pattern. rewrite rmatch_Seq.
  apply rmatch_Lit_mismatch.
  change (strip_prefix (text "<") (c :: s))
    with (if (bracket =? c)%N then Some s else None).
  destruct (N.eqb_spec bracket c) as [Heq|_]; [by destruct Hc|done].
Qed.

(** The scan of the text before a [<] does not depend on what follows:
    the text is sanitized piece by piece. *)
Lemma sub_app_bracket before (tail : list N) :
  sub (_pattern u) replacement (before ++ bracket :: tail)
  = sub (_pattern u) replacement before
    ++ sub (_pattern u) replacement (bracket :: tail).
Proof.
  remember (length before) as n eqn:Hn. revert before Hn.
  induction n as [n IH] using lt_wf_ind. intros before ->.
  destruct before as [|c before]; [done|].
  rewrite (sub_step _ _ ((c :: before) ++ bracket :: tail)).
  rewrite (sub_step _ _ (c :: before)).
  rewrite match_here_local by done.
  assert (Hcopy : sub (_pattern u) replacement (before ++ bracket :: tail)
                  = sub (_pattern u) replacement before
                    ++ sub (_pattern u) replacement (bracket :: tail)).
  { apply (IH (length before)); [simpl; lia|done]. }
  destruct (match_here (_pattern u) (c :: before)) as [[caps rest]|]; simpl.
  - rewrite !length_app. cbn [length].
    destruct (Nat.ltb_spec (length rest) (S (length before))) as [Hlt|Hge].
    + rewrite (proj2 (Nat.ltb_lt _ _)) by lia.
      rewrite (IH (length rest)) by (simpl; done || lia).
      by rewrite !app_assoc.
    + rewrite (proj2 (Nat.ltb_ge _ _)) by lia.
      by rewrite Hcopy, <- !app_assoc.
  - by rewrite Hcopy.
Qed.

(** C7.  A repr of the form [<NAME object at 0xHEX>], with or without
    words between [object] and [at], loses its address and these words and
    becomes [<NAME object>], wherever it stands: the text before it and
    the text after it are sanitized in the same way, each on its own, so
    that every such repr of a text is rewritten.  [\w] and [\s] are the
    classes of the Unicode database, in which no character is both
    alphanumeric and a space.  A text in which the pattern matches nowhere
    is returned unchanged.  In particular
    [<mypkg.Foo object at 0x55aa1234>] becomes [<mypkg.Foo object>] and
    [<capsule object NULL at 0x1>] becomes [<capsule object>]. *)
Theorem value_to_repr_strips_address :
  (disjoint u →
   ∀ before name (extras : list (list N * N)) hex after,
     name ≠ [] → Forall (λ c, name_char u c = true) name →
     Forall (extra_word u) extras →
     hex ≠ [] → Forall (λ c, hex_char c = true) hex →
     value_to_repr u (before ++ repr_with_address name extras hex ++ after)
     = value_to_repr u before ++ repr_without_address name
       ++ value_to_repr u after)
  ∧ (∀ s, (∀ k, match_here (_pattern u) (drop k s) = None) →
          value_to_repr u s = s)
  ∧ value_to_repr u (text "<mypkg.Foo object at 0x55aa1234>")
    = text "<mypkg.Foo object>"
  ∧ value_to_repr u (text "<capsule object NULL at 0x1>")
    = text "<capsule object>".
Proof.
  split_and!; [| |reflexivity..].
  - intros Hu before name extras hex after Hne Hname Hextras Hhexne Hhex.
    unfold value_to_repr.
    destruct (match_here_address u name extras hex after
                Hu Hne Hname Hextras Hhexne Hhex) as (caps & Hmatch & Hgroup).
    assert (Hstart : ∃ tail, repr_with_address name extras hex ++ after
                             = bracket :: tail).
    { unfold repr_with_address. rewrite <- !app_assoc. by eexists. }
    destruct Hstart as [tail Htail].
    rewrite Htail, sub_app_bracket, <- Htail. f_equal.
    rewrite (sub_match _ _ _ _ _ Hmatch).
    + unfold replacement. cbn [expand]. rewrite Hgroup. simpl default.
      unfold repr_without_address. by rewrite app_nil_r, <- !app_assoc.
    + rewrite length_app. unfold repr_with_address. rewrite length_app.
      simpl. lia.
  - intros s Hnone. unfold value_to_repr. by apply sub_loop_no_match.
Qed.

End Substitution.

Section SubstitutionExamples.
Import Re FixValueReprRandomAddress UnicodeExamples.

Lemma latin_disjoint : disjoint latin.
Proof. intros c. simpl. split_N; simpl; congruence. Qed.

Lemma value_to_repr_strips_address_witness :
  value_to_repr latin
    (text "[<Color.RED: 1>, "
     ++ repr_with_address cafe [(text "NULL", 160%N)] (text "55aa1234")
     ++ text "]")
  = value_to_repr latin (text "[<Color.RED: 1>, ")
    ++ repr_without_address cafe
    ++ value_to_repr latin (text "]").
Proof.
  destruct (value_to_repr_strips_address latin) as [H _].
  apply H.
  - exact latin_disjoint.
  - discriminate.
  - repeat constructor.
  - repeat constructor. discriminate.
  - discriminate.
  - repeat constructor.
Defined.

(** Every occurrence is rewritten, also after a [<] that starts no match
    and next to another [<]; what does not match the pattern (here a digit
    that is not hexadecimal) is kept. *)
Example value_to_repr_every_occurrence :
  value_to_repr latin
    (text "[<a.B object at 0x1f>, <capsule object NULL x at 0x2F>] <a object at 0xg>")
  = text "[<a.B object>, <capsule object>] <a object at 0xg>"
  ∧ value_to_repr latin (text "[<Color.RED: 1>, <Foo object at 0x1>]")
    = text "[<Color.RED: 1>, <Foo object>]"
  ∧ value_to_repr latin (text "<<a object at 0x1>") = text "<<a object>".
Proof. split_and!; reflexivity. Qed.

(** Letters and spaces beyond the ASCII range are letters and spaces of
    the pattern: [<Café object at 0x1>] becomes [<Café object>], also with
    a no-break space after a word. *)
Example value_to_repr_unicode :
  value_to_repr latin (text "<" ++ cafe ++ text " object at 0x1>")
  = text "<" ++ cafe ++ text " object>"
  ∧ value_to_repr latin
      (text "<" ++ cafe ++ text " object NULL" ++ [160%N] ++ text "at 0x1>")
    = text "<" ++ cafe ++ text " object>".
Proof. split; reflexivity. Qed.

End SubstitutionExamples.

(** * Further properties of the passes *)

(** ** [FixMissingImports]: the resolver *)

#[local] Abbreviation loop_unfold := parent_loop_unfold.

Section ResolverMore.
Import FixMissingImports.
Context {Obj : Type} (host : Host Obj).
Implicit Types (name par p q : QualifiedName) (st : State Obj).

Lemma parent_loop_skips_longer name par p :
  parent_loop host name par = Some p →
  ∀ q, q `prefix_of` par → length p < length q → _is_module host q = false.
Proof.
  induction par as [|x par IH] using rev_ind.
  - by simp parent_loop.
  - rewrite (loop_unfold host name (par ++ [x])) by (by destruct par).
    destruct (_is_module host (par ++ [x])) eqn:Hmod.
    + destruct (_is_accessible host name (par ++ [x])); [|done].
      simpl. intros [= <-] q Hq%prefix_length Hlen. lia.
    + rewrite parent_snoc. intros Hloop q [->|Hq]%prefix_snoc_inv Hlen; [done|].
      by apply (IH Hloop).
Qed.

(** X1.  [_get_parent_module] answers [p] exactly when [p] is the longest proper
    prefix of the name that imports as a module and [p] exposes the rest of
    the name; it answers [None] exactly when the longest importable proper
    prefix, if there is one, does not expose the rest. *)
Theorem get_parent_module_spec name :
  (∀ p, _get_parent_module host name = Some p
        ↔ longest_importable host name p ∧ _is_accessible host name p = true)
  ∧ (_get_parent_module host name = None
     ↔ ∀ p, longest_importable host name p → _is_accessible host name p = false).
Proof.
  assert (Hsome : ∀ p, _get_parent_module host name = Some p
            → longest_importable host name p ∧ _is_accessible host name p = true).
  { intros p Hp. unfold _get_parent_module in Hp.
    pose proof (parent_loop_skips_longer _ _ _ Hp) as Hlong.
    apply parent_loop_sound in Hp as (Hne & Hpre & Hmod & Hacc).
    split; [|done]. split_and!; [by apply proper_prefix_parent|done|].
    intros q [_ Hq]%proper_prefix_parent Hlen. by apply Hlong. }
  split.
  - intros p. split; [apply Hsome|].
    intros [Hp Hacc]. by rewrite (get_parent_module_longest _ _ _ Hp), Hacc.
  - split.
    + intros Hnone p Hp. rewrite (get_parent_module_longest _ _ _ Hp) in Hnone.
      by destruct (_is_accessible host name p).
    + intros Hall. destruct (_get_parent_module host name) as [p|] eqn:Hp; [|done].
      destruct (Hsome p eq_refl) as [Hlong Hacc]. by rewrite (Hall p Hlong) in Hacc.
Qed.



(** X2.  [_add_import] never touches the current module or class, never removes
    an import and never drops a diagnostic; it does one of three things:
    nothing, add one whole-module import, or report the name once. *)
Theorem add_import_frame name st :
  current_module (_add_import host name st) = current_module st
  ∧ current_class (_add_import host name st) = current_class st
  ∧ extra_imports st ⊆ extra_imports (_add_import host name st)
  ∧ errors st `prefix_of` errors (_add_import host name st)
  ∧ (_add_import host name st = st
     ∨ (∃ p, _add_import host name st = add_extra_import (mkImport None p) st)
     ∨ _add_import host name st = report_error (NameResolutionError name) st).
Proof.
  unfold _add_import.
  destruct (locally_visible host st name).
  { split_and!; [done..|by left]. }
  destruct (_get_parent_module host name) as [p|]; simpl.
  - split_and!; [done|done|set_solver|done|]. right. left. by exists p.
  - split_and!; [done..|by apply prefix_app_r|]. right. by right.
Qed.


(** X4.  A name of one segment has no proper prefix to import: unless its
    segment is visible, it is always reported and never imported. *)
Theorem add_import_single_segment (n : Identifier) st :
  locally_visible host st [n] = false →
  _add_import host [n] st = report_error (NameResolutionError [n]) st.
Proof.
  intros Hvis. unfold _add_import, _get_parent_module. rewrite Hvis.
  change (parent [n]) with (@nil string). by simp parent_loop.
Qed.

(** X5.  While a class is handled, a name whose first segment is an attribute
    of that class needs no import and no diagnostic; afterwards the class
    of the enclosing scope is the current one again. *)
Theorem handle_class_members_visible
    (result : option Class) (path : QualifiedName) (class_ : Obj)
    (n : Identifier) (rest : QualifiedName) st :
  hasattr host class_ n = true →
  handle_class (λ _ _ s, (result, _add_import host (n :: rest) s)) path class_ st
  = (result, st).
Proof.
  intros Hattr. unfold handle_class, _add_import, locally_visible.
  cbn [current_class set_current_class]. rewrite Hattr, orb_true_r.
  by destruct st.
Qed.

End ResolverMore.

Section ResolverMoreWitnesses.
Import FixMissingImports.

Lemma add_import_single_segment_witness :
  _add_import Shadowed.host ["numpy"] Shadowed.start
  = report_error (NameResolutionError ["numpy"]) Shadowed.start.
Proof. apply (add_import_single_segment Shadowed.host). reflexivity. Defined.

Lemma handle_class_members_visible_witness :
  handle_class
    (λ _ _ s, (None, _add_import Shadowed.host ["c"; "Inner"] s))
    ["a"; "b"] Shadowed.class_b Shadowed.start
  = (None, Shadowed.start).
Proof. apply (handle_class_members_visible Shadowed.host). reflexivity. Defined.

End ResolverMoreWitnesses.

(** ** [RemoveSelfAnnotation] *)

Section SelfAnnotation.
Import RemoveSelfAnnotation.

(** X6.  [_remove_self_arg_annotation] keeps the name, the return annotation
    and the documentation of the function, the number, the names and the
    order of its arguments, and every argument after the first.  It clears
    the annotation of the first argument when that argument is named
    [self], and changes nothing otherwise.  Doing it twice is doing it
    once. *)
Theorem remove_self_arg_annotation_spec (func : Function) :
  func_name (_remove_self_arg_annotation func) = func_name func
  ∧ func_returns (_remove_self_arg_annotation func) = func_returns func
  ∧ func_doc (_remove_self_arg_annotation func) = func_doc func
  ∧ map arg_name (func_args (_remove_self_arg_annotation func))
    = map arg_name (func_args func)
  ∧ tail (func_args (_remove_self_arg_annotation func)) = tail (func_args func)
  ∧ (∀ arg0, head (func_args func) = Some arg0 →
       (arg_name arg0 = Some "self" →
        arg_annotation <$> head (func_args (_remove_self_arg_annotation func))
        = Some None)
       ∧ (arg_name arg0 ≠ Some "self" → _remove_self_arg_annotation func = func))
  ∧ _remove_self_arg_annotation (_remove_self_arg_annotation func)
    = _remove_self_arg_annotation func.
Proof.
  unfold _remove_self_arg_annotation.
  destruct (func_args func) as [|arg0 rest] eqn:Hargs.
  { rewrite Hargs. split_and!; try done. }
  destruct (bool_decide (arg_name arg0 = Some "self")) eqn:Hself.
  - apply bool_decide_eq_true_1 in Hself as Hname. simpl.
    rewrite Hself. split_and!; try done.
    intros ? [= <-]. split; [done|]. intros ?. done.
  - apply bool_decide_eq_false_1 in Hself as Hname.
    rewrite Hargs, Hself. split_and!; try done.
    intros ? [= <-]. split; [done|]. done.
Qed.

Lemma remove_self_arg_names (func : Function) :
  map arg_name (func_args (_remove_self_arg_annotation func))
  = map arg_name (func_args func)
  ∧ _remove_self_arg_annotation (_remove_self_arg_annotation func)
    = _remove_self_arg_annotation func.
Proof.
  unfold _remove_self_arg_annotation.
  destruct (func_args func) as [|arg0 rest] eqn:Hargs; [by rewrite Hargs|].
  destruct (bool_decide (arg_name arg0 = Some "self")) eqn:Hself.
  - simpl. by rewrite Hself.
  - by rewrite Hargs, Hself.
Qed.

(** X7.  [handle_method] keeps the number, the order and the modifiers of the
    methods and the names of the arguments of each one; [handle_property]
    keeps the name and the documentation of the property and gives it a
    getter and a setter exactly when it had them. *)
Theorem handle_method_property_shape
    (methods : list Method) (prop : Property) :
  length (handle_method methods) = length methods
  ∧ map method_modifier (handle_method methods) = map method_modifier methods
  ∧ map (λ m, map arg_name (func_args (method_function m))) (handle_method methods)
    = map (λ m, map arg_name (func_args (method_function m))) methods
  ∧ handle_method (handle_method methods) = handle_method methods
  ∧ handle_property None = None
  ∧ ∃ prop', handle_property (Some prop) = Some prop'
      ∧ prop_name prop' = prop_name prop
      ∧ prop_doc prop' = prop_doc prop
      ∧ (prop_getter prop' = None ↔ prop_getter prop = None)
      ∧ (prop_setter prop' = None ↔ prop_setter prop = None).
Proof.
  unfold handle_method. split_and!.
  - by rewrite length_map.
  - rewrite map_map. done.
  - rewrite map_map. apply map_ext. intros m. simpl.
    by destruct (remove_self_arg_names (method_function m)) as [-> _].
  - rewrite map_map. apply map_ext. intros m. simpl. f_equal.
    by destruct (remove_self_arg_names (method_function m)) as [_ ->].
  - done.
  - eexists. split; [done|]. simpl. split_and!; [done..| |].
    + by destruct (prop_getter prop).
    + by destruct (prop_setter prop).
Qed.

End SelfAnnotation.

(** ** [FixMissing__future__AnnotationsImport] and [FixMissing__all__Attribute] *)

Section ModulePasses.
Import FixMissing__all__Attribute.
Variable handle_value : list string → Value.

#[local] Abbreviation add_future :=
  FixMissing__future__AnnotationsImport.handle_module.
#[local] Abbreviation add_all := (handle_module handle_value).

Lemma has___all___app (result : Module) (attrs : list Attribute) :
  has___all__ (set_module_attributes (module_attributes result ++ attrs) result)
  = has___all__ result || existsb (λ a, String.eqb (attr_name a) "__all__") attrs.
Proof. unfold has___all__. simpl. apply existsb_app. Qed.

(** X8.  After the pass the module has an attribute [__all__]; the attributes it
    had come first, unchanged, and nothing else of the module changes.  The
    pass applied to its own result changes nothing. *)
Theorem handle_module_export_list_once (result : Module) :
  ∃ result', add_all (Some result) = Some result'
    ∧ has___all__ result' = true
    ∧ module_attributes result `prefix_of` module_attributes result'
    ∧ module_imports result' = module_imports result
    ∧ module_classes result' = module_classes result
    ∧ module_functions result' = module_functions result
    ∧ module_sub_modules result' = module_sub_modules result
    ∧ module_aliases result' = module_aliases result
    ∧ add_all (add_all (Some result)) = add_all (Some result).
Proof.
  unfold handle_module. destruct (has___all__ result) eqn:Hall.
  - exists result. rewrite Hall. by split_and!.
  - eexists. split; [done|].
    rewrite has___all___app, Hall. simpl.
    split_and!; try done. by apply prefix_app_r.
Qed.

(** X9.  The import of [annotations] from [__future__] is a named import, and
    the export list holds the names of the named imports: when the export
    list is made from the result of the [__future__] pass, [annotations] is
    exported; made before, [annotations] is exported only if the module
    has a member of that name. *)
Theorem future_import_exported (result : Module) :
  (∀ result', add_future (Some result) = Some result' →
     module_imports result'
     = module_imports result ∪ {[ mkImport (Some "annotations")
                                           ["__future__"; "annotations"] ]}
     ∧ "annotations" ∈ all_names result')
  ∧ ("annotations" ∈ all_names result ↔ names_member result "annotations")
  ∧ add_future (add_future (Some result)) = add_future (Some result).
Proof.
  split_and!.
  - intros result' [= <-]. split; [done|].
    apply elem_of_all_names. split.
    + unfold names_member. do 4 right. left.
      exists (FixMissing__future__AnnotationsImport._future "annotations").
      split; [|done]. simpl. set_solver.
    + intros [rest [=]].
  - rewrite elem_of_all_names. split; [by intros [? _]|].
    intros ?. split; [done|]. intros [rest [=]].
  - simpl. f_equal. unfold FixMissingImports.set_module_imports. simpl.
    f_equal. set_solver.
Qed.

End ModulePasses.

(** ** [FixBuiltinTypes] *)

Section BuiltinTypes.
Import FixBuiltinTypes.
Variable super_handle_type : PyType → QualifiedName.

(** X10.  The capsule type of the builtins is any type, whatever the passes
    beneath say.  For another type whose name starts with [builtins], that
    segment is stripped, and [builtins.NoneType] becomes [None]; a name
    that does not start with [builtins] is returned as it is.  The pass
    raises [IndexError] on the empty name and on the name [builtins]
    alone. *)
Theorem handle_type_builtins (type_ : PyType) :
  (__qualname__ type_ = "PyCapsule" → __module__ type_ = "builtins" →
   handle_type super_handle_type type_ = Returned ["typing"; "Any"])
  ∧ (¬ (__qualname__ type_ = "PyCapsule" ∧ __module__ type_ = "builtins") →
     (super_handle_type type_ = [] ∨ super_handle_type type_ = ["builtins"] →
      handle_type super_handle_type type_ = Raised IndexError)
     ∧ (∀ rest, super_handle_type type_ = "builtins" :: "NoneType" :: rest →
          handle_type super_handle_type type_ = Returned ["None"])
     ∧ (∀ second rest, super_handle_type type_ = "builtins" :: second :: rest →
          second ≠ "NoneType" →
          handle_type super_handle_type type_ = Returned (second :: rest))
     ∧ (∀ first rest, super_handle_type type_ = first :: rest →
          first ≠ "builtins" →
          handle_type super_handle_type type_ = Returned (first :: rest))).
Proof.
  unfold handle_type. split.
  - intros -> ->. done.
  - intros Hcapsule.
    assert (Hno : String.eqb (__qualname__ type_) "PyCapsule"
                  && String.eqb (__module__ type_) "builtins" = false).
    { apply not_true_is_false. intros [?%String.eqb_eq ?%String.eqb_eq]%andb_true_iff.
      by apply Hcapsule. }
    rewrite Hno. split_and!.
    + by intros [->| ->].
    + by intros rest ->.
    + intros second rest -> Hsecond. simpl.
      by apply String.eqb_neq in Hsecond as ->.
    + intros first rest -> Hfirst. simpl.
      by apply String.eqb_neq in Hfirst as ->.
Qed.

End BuiltinTypes.

Section BuiltinTypesWitnesses.
Import FixBuiltinTypes TypeExamples.

Lemma handle_type_builtins_witness :
  handle_type qualified capsule_type = Returned ["typing"; "Any"]
  ∧ handle_type qualified none_type = Returned ["None"]
  ∧ handle_type qualified int_type = Returned ["int"].
Proof.
  split_and!.
  - destruct (handle_type_builtins qualified capsule_type) as [H _].
    apply H; reflexivity.
  - destruct (handle_type_builtins qualified none_type) as [_ H].
    destruct H as (_ & H & _); [by intros [[=] _]|]. by apply (H []).
  - destruct (handle_type_builtins qualified int_type) as [_ H].
    destruct H as (_ & _ & H & _); [by intros [[=] _]|]. by apply (H "int" []).
Defined.

End BuiltinTypesWitnesses.

(** ** [FixTypingExtTypeNames] *)

Section TypingExtNames.
Import FixTypingExtTypeNames.

(** X11.  An unparameterized [buffer] becomes [typing_extensions.Buffer]; with
    parameters it is left as it is, as is every other name; the rewrite is
    idempotent and raises on the empty name only. *)
Theorem parse_annotation_str_buffer
    (tail : QualifiedName) (name : QualifiedName)
    (parameters : option (list Annotation)) :
  parse_annotation_str (ResolvedType ("buffer" :: tail) None)
  = Returned (ResolvedType ["typing_extensions"; "Buffer"] None)
  ∧ (parameters ≠ None →
     parse_annotation_str (ResolvedType ("buffer" :: tail) parameters)
     = Returned (ResolvedType ("buffer" :: tail) parameters))
  ∧ (head name ≠ Some "buffer" → name ≠ [] →
     parse_annotation_str (ResolvedType name parameters)
     = Returned (ResolvedType name parameters))
  ∧ (name ≠ [] →
     ∃ a, parse_annotation_str (ResolvedType name parameters) = Returned a
          ∧ parse_annotation_str a = Returned a)
  ∧ parse_annotation_str (ResolvedType [] parameters) = Raised AssertionError.
Proof.
  assert (Hother : ∀ name, head name ≠ Some "buffer" → name ≠ [] →
            parse_annotation_str (ResolvedType name parameters)
            = Returned (ResolvedType name parameters)).
  { intros [|word rest] Hhead Hne; [done|]. unfold parse_annotation_str.
    rewrite bool_decide_eq_false_2; [done|].
    unfold __typing_names. intros ->%list_elem_of_singleton. done. }
  split_and!; [done| |apply Hother| |done].
  - intros Hp. unfold parse_annotation_str.
    by rewrite (bool_decide_eq_false_2 (parameters = None)), andb_false_r.
  - intros Hne. destruct (decide (head name = Some "buffer")) as [Hb|Hb].
    + destruct name as [|word rest]; [done|]. injection Hb as ->.
      destruct parameters as [ps|].
      * eexists. split; reflexivity.
      * eexists. split; reflexivity.
    + eexists. split; by apply Hother.
Qed.

Lemma typing_name_not_buffer (word : Identifier) :
  word ∈ FixTypingTypeNames.__typing_names → word ∉ __typing_names.
Proof.
  unfold FixTypingTypeNames.__typing_names, __typing_names. intros H.
  repeat (apply elem_of_cons in H as [->|H];
          [by intros [=]%list_elem_of_singleton|]).
  by apply elem_of_nil in H.
Qed.

(** X12.  The two passes that canonicalize names commute: their sets of names
    are disjoint, and neither [typing] nor [typing_extensions] is in
    them. *)
Theorem typing_passes_commute (a : Annotation) :
  (FixTypingTypeNames.parse_annotation_str a ≫= parse_annotation_str)
  = (parse_annotation_str a ≫= FixTypingTypeNames.parse_annotation_str).
Proof.
  destruct a as [[|word rest] parameters| |]; [done| |done..].
  unfold FixTypingTypeNames.parse_annotation_str at 1.
  unfold parse_annotation_str at 2.
  destruct (bool_decide (word ∈ FixTypingTypeNames.__typing_names)) eqn:Htyping.
  - apply bool_decide_eq_true_1 in Htyping as Hin.
    rewrite (bool_decide_eq_false_2 _ (typing_name_not_buffer _ Hin)).
    rewrite typing_path_of_name by done. simpl.
    unfold FixTypingTypeNames.parse_annotation_str.
    by rewrite Htyping, typing_path_of_name.
  - destruct (bool_decide (word ∈ __typing_names)) eqn:Hbuffer.
    + apply bool_decide_eq_true_1 in Hbuffer as ->%list_elem_of_singleton.
      destruct parameters as [ps|]; simpl.
      * unfold parse_annotation_str, FixTypingTypeNames.parse_annotation_str.
        reflexivity.
      * reflexivity.
    + simpl. unfold parse_annotation_str, FixTypingTypeNames.parse_annotation_str.
      by rewrite Htyping, Hbuffer.
Qed.

End TypingExtNames.

(** ** [FixCurrentModulePrefixInTypeNames] *)

Section CurrentModulePrefix.
Import FixCurrentModulePrefixInTypeNames.
Implicit Types (current_module name : QualifiedName).

Lemma take_length_prefix current_module name :
  take (length current_module) name = current_module
  ↔ current_module `prefix_of` name.
Proof.
  split.
  - intros H. exists (drop (length current_module) name).
    by rewrite <- H at 1; rewrite take_drop.
  - intros [k ->]. apply take_app_length.
Qed.

(** X13.  [_strip_current_module] removes the name of the current module from
    the front of a name that starts with it, and nothing else: putting the
    prefix back gives the name again.  A name that does not start with it
    is returned as it is, and so is every name while no module is entered.
    The name of the current module itself is stripped to the empty name. *)
Theorem strip_current_module_spec current_module name :
  (current_module `prefix_of` name →
   current_module ++ _strip_current_module current_module name = name)
  ∧ (¬ current_module `prefix_of` name →
     _strip_current_module current_module name = name)
  ∧ _strip_current_module current_module name `suffix_of` name
  ∧ _strip_current_module current_module current_module = []
  ∧ _strip_current_module [] name = name.
Proof.
  unfold _strip_current_module. split_and!.
  - intros Hpre. rewrite bool_decide_eq_true_2 by (by apply take_length_prefix).
    destruct Hpre as [k ->]. by rewrite drop_app_length.
  - intros Hpre. by rewrite bool_decide_eq_false_2 by (by rewrite take_length_prefix).
  - case_bool_decide; [|done]. apply suffix_drop.
  - rewrite firstn_all, bool_decide_eq_true_2 by done. apply drop_all.
  - done.
Qed.

(** X14.  A reference to the current module itself is stripped to the empty
    name; the import resolver, run on the stripped annotation, finds no
    module to import for it and reports the empty name. *)
Theorem self_reference_reported {Obj : Type} (host : Host Obj)
    current_module (parameters : option (list Annotation))
    (st : FixMissingImports.State Obj) :
  FixMissingImports.parse_annotation_str host
    (parse_annotation_str current_module (ResolvedType current_module parameters))
    st
  = (ResolvedType [] parameters,
     FixMissingImports.report_error (NameResolutionError []) st).
Proof.
  unfold parse_annotation_str, _strip_current_module.
  rewrite firstn_all, bool_decide_eq_true_2, drop_all by done.
  unfold FixMissingImports.parse_annotation_str, FixMissingImports._add_import,
    FixMissingImports._get_parent_module.
  simpl. by simp parent_loop.
Qed.

End CurrentModulePrefix.

Section CurrentModulePrefixWitnesses.
Import FixCurrentModulePrefixInTypeNames.

Lemma strip_current_module_spec_witness :
  ["pkg"; "core"] ++ _strip_current_module ["pkg"; "core"] ["pkg"; "core"; "Shape"]
  = ["pkg"; "core"; "Shape"].
Proof.
  destruct (strip_current_module_spec ["pkg"; "core"] ["pkg"; "core"; "Shape"])
    as [H _].
  apply H. by exists ["Shape"].
Defined.

End CurrentModulePrefixWitnesses.

(** ** [FixRedundantMethodsFromBuiltinObject] *)

Section RedundantMethods.
Import FixRedundantMethodsFromBuiltinObject.
Variable object_init_doc : option string.

(** X15.  [handle_method] drops exactly the methods named [__init__] whose
    documentation is that of [object.__init__]; the others are kept, in
    their order, and a second run drops nothing more. *)
Theorem handle_method_drops_object_init (methods : list Method) :
  (∀ m, m ∈ handle_method object_init_doc methods
        ↔ m ∈ methods
          ∧ ¬ (func_name (method_function m) = "__init__"
               ∧ func_doc (method_function m) = object_init_doc))
  ∧ handle_method object_init_doc methods `sublist_of` methods
  ∧ handle_method object_init_doc (handle_method object_init_doc methods)
    = handle_method object_init_doc methods.
Proof.
  unfold handle_method. split_and!.
  - intros m. rewrite list_elem_of_In, filter_In, <- list_elem_of_In.
    unfold is_object_init. rewrite negb_true_iff, andb_false_iff.
    rewrite String.eqb_neq, bool_decide_eq_false.
    split; intros [Hin H]; (split; [done|]).
    + intros [Hn Hd]. by destruct H.
    + destruct (decide (func_name (method_function m) = "__init__")) as [Hn|Hn];
        [right|by left].
      intros Hd. by apply H.
  - induction methods as [|m methods IH]; simpl; [done|].
    destruct (negb _); by constructor.
  - induction methods as [|m methods IH]; simpl; [done|].
    destruct (negb (is_object_init object_init_doc m)) eqn:Hm; [|done].
    simpl. by rewrite Hm, IH.
Qed.

End RedundantMethods.

(** ** The passes on arrays *)

Section NumpyPasses.
Import FixNumpyArrayDimAnnotation.
Context {S : Type}.
Variable py_int : string → option Z.
Variable handle_type_FixedSize : S → S.
Variable handle_value_FixedSize : list Z → Value.

#[local] Abbreviation dim_pass :=
  (parse_annotation_str py_int handle_type_FixedSize handle_value_FixedSize).
#[local] Abbreviation remove_pass :=
  FixNumpyArrayRemoveParameters.parse_annotation_str.

(** The dimensions read are those written, one for each, in their
    order. *)
Lemma dims_of_values (dims : list Annotation) (ds : list Z) :
  forallb is_value dims = true →
  dims_of py_int dims = Some ds →
  Forall2 (λ dim d, ∃ v, dim = ValueExpr v ∧ py_int (repr v) = Some d) dims ds.
Proof.
  revert ds. induction dims as [|dim dims IH]; intros ds Hvalues Hdims.
  - injection Hdims as <-. constructor.
  - simpl in Hvalues. apply andb_true_iff in Hvalues as [Hdim Hvalues].
    destruct dim as [| v |]; try done. simpl in Hdims.
    destruct (py_int (repr v)) as [d|] eqn:Hd; [|done].
    destruct (dims_of py_int dims) as [ds'|]; [|done].
    injection Hdims as <-. constructor; [by exists v|by apply IH].
Qed.

Lemma dim_pass_cases (a : Annotation) (st : S) :
  (dim_pass a st = (Some a, st))
  ∨ (∃ param_name dims,
       a = ResolvedType ["numpy"; "ndarray"]
             (Some [ResolvedType param_name (Some dims)])
       ∧ param_name ∈ numpy_primitive_types
       ∧ forallb is_value dims = true
       ∧ ((∃ ds, Forall2 (λ dim d, ∃ v, dim = ValueExpr v
                                       ∧ py_int (repr v) = Some d) dims ds
                 ∧ dim_pass a st
                   = (Some (ResolvedType ["typing"; "Annotated"]
                              (Some [ResolvedType ["numpy"; "ndarray"] None;
                                     ResolvedType param_name None;
                                     ValueExpr (handle_value_FixedSize ds)])),
                      handle_type_FixedSize st))
          ∨ (dims_of py_int dims = None ∧ dim_pass a st = (None, st)))).
Proof.
  unfold parse_annotation_str.
  destruct a as [name [[|[param_name [dims|]| |] [|? ?]]|]| |]; try by left.
  destruct (bool_decide (name = __ndarray_name)) eqn:Hname; [|by left].
  destruct (bool_decide (param_name ∈ numpy_primitive_types)) eqn:Hparam; [|by left].
  destruct (forallb is_value dims) eqn:Hvalues; [|by left].
  apply bool_decide_eq_true_1 in Hname as ->.
  apply bool_decide_eq_true_1 in Hparam.
  right. exists param_name, dims. split_and!; [done..|]. simpl.
  destruct (dims_of py_int dims) as [ds|] eqn:Hdims; [left|by right].
  exists ds. split; [by apply dims_of_values|done].
Qed.

(** X16.  The pass rewrites [numpy.ndarray[T[d1, ..., dn]]], for a primitive
    type [T] of numpy and literal dimensions, to
    [typing.Annotated[numpy.ndarray, T, FixedSize(d1, ..., dn)]], and
    requests the type [FixedSize] once; when a dimension is not an integer
    it raises [ValueError] and requests nothing.  Every other annotation
    is returned as it is, with the state as it was. *)
Theorem parse_annotation_str_array_dims (a : Annotation) (st : S) :
  (dim_pass a st = (Some a, st))
  ∨ (∃ param_name dims,
       a = ResolvedType ["numpy"; "ndarray"]
             (Some [ResolvedType param_name (Some dims)])
       ∧ param_name ∈ numpy_primitive_types
       ∧ forallb is_value dims = true
       ∧ ((∃ ds, Forall2 (λ dim d, ∃ v, dim = ValueExpr v
                                       ∧ py_int (repr v) = Some d) dims ds
                 ∧ dim_pass a st
                   = (Some (ResolvedType ["typing"; "Annotated"]
                              (Some [ResolvedType ["numpy"; "ndarray"] None;
                                     ResolvedType param_name None;
                                     ValueExpr (handle_value_FixedSize ds)])),
                      handle_type_FixedSize st))
          ∨ (dims_of py_int dims = None ∧ dim_pass a st = (None, st)))).
Proof. apply dim_pass_cases. Qed.

(** X17.  The two passes on arrays exclude each other: after the parameters of
    an array were removed there is nothing for the dimension pass to
    rewrite, and what the dimension pass has rewritten is not an array
    whose parameters could be removed.  Removing is idempotent and changes
    nothing but the parameters of [numpy.ndarray]. *)
Theorem array_passes_exclusive (a : Annotation) (st : S) :
  dim_pass (remove_pass a) st = (Some (remove_pass a), st)
  ∧ (∀ a' st', dim_pass a st = (Some a', st') → a' ≠ a → remove_pass a' = a')
  ∧ remove_pass (remove_pass a) = remove_pass a
  ∧ (∀ name parameters, a = ResolvedType name parameters →
       remove_pass a
       = ResolvedType name (if bool_decide (name = ["numpy"; "ndarray"])
                            then None else parameters)).
Proof.
  split_and!.
  - unfold FixNumpyArrayRemoveParameters.parse_annotation_str.
    destruct a as [name ps| |]; [|done..].
    case_bool_decide as Hname; [done|].
    unfold parse_annotation_str.
    destruct ps as [[|[param_name [dims|]| |] [|? ?]]|]; try done.
    by rewrite (bool_decide_eq_false_2 (name = __ndarray_name)).
  - intros a' st' Hpass Hne.
    destruct (dim_pass_cases a st)
      as [Hsame|(pn & dims & -> & _ & _ & [(ds & _ & Hre)|[_ Hraise]])].
    + rewrite Hsame in Hpass. by injection Hpass as <- <-.
    + rewrite Hre in Hpass. by injection Hpass as <- <-.
    + by rewrite Hraise in Hpass.
  - unfold FixNumpyArrayRemoveParameters.parse_annotation_str.
    destruct a as [name ps| |]; [|done..].
    case_bool_decide as Hname; [|by rewrite bool_decide_eq_false_2].
    by rewrite bool_decide_eq_true_2.
  - intros name parameters ->.
    unfold FixNumpyArrayRemoveParameters.parse_annotation_str.
    change FixNumpyArrayRemoveParameters.__ndarray_name with ["numpy"; "ndarray"].
    by case_bool_decide.
Qed.

End NumpyPasses.

Section NumpyPassesWitnesses.
Import FixNumpyArrayDimAnnotation IntExamples.

(** [numpy.ndarray[numpy.float32[3, 3]]] becomes
    [typing.Annotated[numpy.ndarray, numpy.float32, FixedSize(3, 3)]]. *)
Example matrix33_annotated :
  parse_annotation_str py_int handle_type_FixedSize handle_value_FixedSize
    matrix33 []
  = (Some (ResolvedType ["typing"; "Annotated"]
             (Some [ResolvedType ["numpy"; "ndarray"] None;
                    ResolvedType ["numpy"; "float32"] None;
                    ValueExpr (mkValue "pybind11_stubgen.typing_ext.FixedSize(3, 3)")])),
     [["pybind11_stubgen"; "typing_ext"; "FixedSize"]]).
Proof. vm_compute. reflexivity. Qed.

Lemma array_passes_exclusive_witness :
  FixNumpyArrayRemoveParameters.parse_annotation_str
    (ResolvedType ["typing"; "Annotated"]
       (Some [ResolvedType ["numpy"; "ndarray"] None;
              ResolvedType ["numpy"; "float32"] None;
              ValueExpr (mkValue "pybind11_stubgen.typing_ext.FixedSize(3, 3)")]))
  = ResolvedType ["typing"; "Annotated"]
      (Some [ResolvedType ["numpy"; "ndarray"] None;
             ResolvedType ["numpy"; "float32"] None;
             ValueExpr (mkValue "pybind11_stubgen.typing_ext.FixedSize(3, 3)")]).
Proof.
  destruct (array_passes_exclusive py_int handle_type_FixedSize
              handle_value_FixedSize matrix33 []) as (_ & H & _).
  apply (H _ [["pybind11_stubgen"; "typing_ext"; "FixedSize"]]).
  - vm_compute. reflexivity.
  - discriminate.
Defined.

End NumpyPassesWitnesses.

(** ** [FixMissingFixedSizeImport] *)

Section FixedSizeImport.
Import FixMissingFixedSizeImport.
Context {S : Type}.
Variable py_int : string → option Z.
Variable handle_type_FixedSize : S → S.
Variable handle_value_FixedSize : list Z → Value.

#[local] Abbreviation fixed_size_pass :=
  (parse_annotation_str py_int handle_type_FixedSize handle_value_FixedSize).

Lemma list_ascii_of_string_app (s1 s2 : string) :
  list_ascii_of_string (s1 ++ s2)
  = list_ascii_of_string s1 ++ list_ascii_of_string s2.
Proof. induction s1 as [|c s1 IH]; simpl; [done|]. by rewrite IH. Qed.

Lemma prefix_append (s r : string) : String.prefix s (s ++ r) = true.
Proof.
  induction s as [|c s IH]; [by destruct r|].
  change (String.prefix (String c s) (String c s ++ r))
    with (if ascii_dec c c then String.prefix s (s ++ r) else false).
  by destruct (ascii_dec c c).
Qed.

Lemma split_on_piece (sep : ascii) (w cur rest : list ascii) :
  Forall (λ c, c ≠ sep) w →
  split_on sep cur (w ++ rest) = split_on sep (rev w ++ cur) rest.
Proof.
  intros Hw. revert cur. induction Hw as [|c w Hc _ IH]; intros cur; [done|].
  change ((c :: w) ++ rest) with (c :: w ++ rest). cbn [split_on].
  destruct (Ascii.eqb_spec c sep) as [?|_]; [done|].
  rewrite IH. simpl. by rewrite <- app_assoc.
Qed.

(** Splitting at the commas undoes joining with commas. *)
Lemma split_on_concat (texts : list string) :
  texts ≠ [] → Forall no_comma texts →
  split_on "," [] (list_ascii_of_string (String.concat "," texts)) = texts.
Proof.
  intros Hne Htexts. induction Htexts as [|t texts Ht Htexts IH]; [done|].
  destruct texts as [|t' texts].
  - simpl. rewrite <- (app_nil_r (list_ascii_of_string t)).
    rewrite (split_on_piece _ _ _ _ Ht). simpl.
    by rewrite app_nil_r, rev_involutive, string_of_list_ascii_of_string.
  - change (String.concat "," (t :: t' :: texts))
      with (t ++ "," ++ String.concat "," (t' :: texts))%string.
    rewrite list_ascii_of_string_app, (split_on_piece _ _ _ _ Ht).
    rewrite list_ascii_of_string_app.
    change (list_ascii_of_string "," ++ ?x) with (","%char :: x).
    cbn [split_on]. rewrite Ascii.eqb_refl.
    rewrite app_nil_r, rev_involutive, string_of_list_ascii_of_string.
    f_equal. by apply IH.
Qed.

Lemma fixed_size_text_shape (texts : list string) :
  texts ≠ [] → Forall no_comma texts →
  String.prefix "FixedSize(" (fixed_size_text texts) = true
  ∧ endswith_paren (fixed_size_text texts) = true
  ∧ dimension_texts (fixed_size_text texts) = texts.
Proof.
  intros Hne Htexts. unfold fixed_size_text. split_and!.
  - apply prefix_append.
  - unfold endswith_paren.
    rewrite !list_ascii_of_string_app, !app_assoc.
    change (list_ascii_of_string ")") with [")"%char]. by rewrite last_snoc.
  - unfold dimension_texts. rewrite !list_ascii_of_string_app.
    change (drop 10 (list_ascii_of_string "FixedSize(" ++ ?x)) with x.
    change (list_ascii_of_string ")") with [")"%char].
    rewrite removelast_last. by apply split_on_concat.
Qed.

Lemma dimensions_Some (texts : list string) (ds : list Z) :
  dimensions py_int texts = Some ds ↔ Forall2 (λ t d, py_int t = Some d) texts ds.
Proof.
  revert ds. induction texts as [|t texts IH]; intros ds; simpl.
  - split; [intros [= <-]; constructor|by intros ->%Forall2_nil_inv_l].
  - destruct (py_int t) as [d|] eqn:Ht.
    + destruct (dimensions py_int texts) as [ds'|].
      * split.
        -- intros [= <-]. constructor; [done|]. by apply IH.
        -- intros (d' & ds'' & Hd & Hds%IH & ->)%Forall2_cons_inv_l.
           congruence.
      * split; [done|].
        intros (d' & ds'' & _ & Hds%IH & _)%Forall2_cons_inv_l. done.
    + split; [done|].
      intros (d' & ds'' & Hd & _)%Forall2_cons_inv_l. by rewrite Ht in Hd.
Qed.

Lemma dimensions_None (texts : list string) :
  dimensions py_int texts = None ↔ ∃ t, t ∈ texts ∧ py_int t = None.
Proof.
  induction texts as [|t texts IH]; simpl.
  - split; [done|]. by intros (? & ?%elem_of_nil & _).
  - destruct (py_int t) as [d|] eqn:Ht.
    + destruct (dimensions py_int texts) as [ds'|].
      * split; [done|]. intros (t' & [->|Hin]%elem_of_cons & Hnone).
        -- by rewrite Ht in Hnone.
        -- assert (@None (list Z) = Some ds') as [=]. symmetry. apply IH. eauto.
      * split; [|done]. intros _. destruct IH as [IH _].
        destruct (IH eq_refl) as (t' & ? & ?). exists t'. split; [by right|done].
    + split; [|done]. intros _. exists t. split; [by left|done].
Qed.

(** X18.  A literal [FixedSize(t1,...,tn)] whose texts are all integers becomes
    the value of [FixedSize(d1, ..., dn)], with one dimension for each
    text, in their order, and the type [FixedSize] is requested. *)
Theorem fixed_size_literal_parsed (texts : list string) (ds : list Z) (st : S) :
  texts ≠ [] → Forall no_comma texts →
  Forall2 (λ t d, py_int t = Some d) texts ds →
  fixed_size_pass (ValueExpr (mkValue (fixed_size_text texts))) st
  = (Some (ValueExpr (handle_value_FixedSize ds)), handle_type_FixedSize st).
Proof.
  intros Hne Htexts Hds.
  destruct (fixed_size_text_shape texts Hne Htexts) as (Hpre & Hend & Hdims).
  unfold parse_annotation_str. cbn [repr]. rewrite Hpre, Hend, Hdims. simpl.
  apply dimensions_Some in Hds. by rewrite Hds.
Qed.

(** X19.  A literal [FixedSize(...)] with a text that is not an integer is not
    passed through: the pass raises [ValueError], after it has requested
    the type [FixedSize].  This is so for [FixedSize()], whose only text
    is empty. *)
Theorem fixed_size_literal_raises (texts : list string) (st : S) :
  texts ≠ [] → Forall no_comma texts →
  (∃ t, t ∈ texts ∧ py_int t = None) →
  fixed_size_pass (ValueExpr (mkValue (fixed_size_text texts))) st
  = (None, handle_type_FixedSize st).
Proof.
  intros Hne Htexts Hnone.
  destruct (fixed_size_text_shape texts Hne Htexts) as (Hpre & Hend & Hdims).
  unfold parse_annotation_str. cbn [repr]. rewrite Hpre, Hend, Hdims. simpl.
  apply dimensions_None in Hnone. by rewrite Hnone.
Qed.

(** X20.  What is not a value, and a value whose text does not start with
    [FixedSize(] or does not end with a parenthesis, is returned as it is
    and requests nothing.  The repr of a [FixedSize] object starts with
    the path of its module, so the value the dimension pass makes is not
    parsed again. *)
Theorem fixed_size_pass_through (a : Annotation) (dim : list Z) (st : S) :
  (match a with
   | ValueExpr v =>
       String.prefix "FixedSize(" (repr v) = false ∨ endswith_paren (repr v) = false
   | _ => True
   end →
   fixed_size_pass a st = (Some a, st))
  ∧ fixed_size_pass (ValueExpr (mkValue (typing_ext.__repr__ dim))) st
    = (Some (ValueExpr (mkValue (typing_ext.__repr__ dim))), st).
Proof.
  unfold parse_annotation_str. split.
  - destruct a as [| v |]; [done| |done].
    intros [-> | ->]; [done|by rewrite andb_false_r].
  - reflexivity.
Qed.

End FixedSizeImport.

Section FixedSizeImportWitnesses.
Import FixMissingFixedSizeImport IntExamples.

Lemma fixed_size_literal_parsed_witness :
  parse_annotation_str py_int handle_type_FixedSize handle_value_FixedSize
    (ValueExpr (mkValue (fixed_size_text ["3"; " 4"]))) []
  = (Some (ValueExpr (handle_value_FixedSize [3%Z; 4%Z])),
     handle_type_FixedSize []).
Proof.
  apply (fixed_size_literal_parsed py_int handle_type_FixedSize
           handle_value_FixedSize ["3"; " 4"] [3%Z; 4%Z] []).
  - discriminate.
  - repeat constructor; discriminate.
  - repeat constructor.
Defined.

Lemma fixed_size_literal_raises_witness :
  parse_annotation_str py_int handle_type_FixedSize handle_value_FixedSize
    (ValueExpr (mkValue (fixed_size_text [""]))) []
  = (None, handle_type_FixedSize []).
Proof.
  apply (fixed_size_literal_raises py_int handle_type_FixedSize
           handle_value_FixedSize [""] []).
  - discriminate.
  - repeat constructor.
  - exists "". split; [by left|reflexivity].
Defined.

Lemma fixed_size_pass_through_witness :
  parse_annotation_str py_int handle_type_FixedSize handle_value_FixedSize
    (ValueExpr (mkValue "Size(3)")) []
  = (Some (ValueExpr (mkValue "Size(3)")), []).
Proof.
  destruct (fixed_size_pass_through py_int handle_type_FixedSize
              handle_value_FixedSize (ValueExpr (mkValue "Size(3)")) [] [])
    as [H _].
  apply H. left. reflexivity.
Defined.

End FixedSizeImportWitnesses.

(** ** [FixRedundantBuiltinsAnnotation] and [FixMissingNoneHashFieldAnnotation] *)

Section AttributePasses.
Context {Obj : Type}.
Variable is_none : Obj → bool.
Variable ismodule : Obj → bool.
Variable parse_annotation_str : string → Annotation.

(** X21.  For an attribute whose value is [None] or a module the annotation is
    cleared and the name and the value are kept; the import resolver, run
    on the result, then has no type to resolve: it registers nothing and
    reports nothing.  For every other attribute the pass changes
    nothing. *)
Theorem cleared_annotation_needs_no_import (host : Host Obj) (attr : Obj)
    (result : Attribute) (st : FixMissingImports.State Obj) :
  (is_none attr || ismodule attr = true →
   FixMissingImports.handle_attribute host
     (FixRedundantBuiltinsAnnotation.handle_attribute is_none ismodule attr
        (Some result)) st
   = (Some (mkAttribute (attr_name result) (attr_value result) None), st))
  ∧ (is_none attr || ismodule attr = false →
     FixRedundantBuiltinsAnnotation.handle_attribute is_none ismodule attr
       (Some result)
     = Some result).
Proof.
  unfold FixRedundantBuiltinsAnnotation.handle_attribute.
  split; intros ->; done.
Qed.

(** X22.  The field [__hash__] whose value is [None] is annotated with what
    [typing.ClassVar[None]] parses to, its name, value and modifier kept.
    The last segment of the path is read only when the value is [None]: on
    the empty path the pass raises [IndexError] then, and returns the field
    as it is otherwise. *)
Theorem handle_field_none_hash (path : QualifiedName) (field : Obj)
    (result : Field) :
  (is_none field = false →
   FixMissingNoneHashFieldAnnotation.handle_field is_none parse_annotation_str
     path field (Some result) = Returned (Some result))
  ∧ (is_none field = true →
     FixMissingNoneHashFieldAnnotation.handle_field is_none parse_annotation_str
       [] field (Some result) = Raised IndexError)
  ∧ (is_none field = true →
     ∀ name, last path = Some name →
       FixMissingNoneHashFieldAnnotation.handle_field is_none
         parse_annotation_str path field (Some result)
       = Returned (Some (if String.eqb name "__hash__"
                         then mkField
                                (mkAttribute
                                   (attr_name (field_attribute result))
                                   (attr_value (field_attribute result))
                                   (Some (parse_annotation_str "typing.ClassVar[None]")))
                                (field_modifier result)
                         else result))).
Proof.
  unfold FixMissingNoneHashFieldAnnotation.handle_field. split_and!.
  - by intros ->.
  - by intros ->.
  - intros -> name ->. by destruct (String.eqb name "__hash__").
Qed.

End AttributePasses.

Section AttributePassesWitnesses.
Import LiveValues AttributeExamples.

Lemma cleared_annotation_needs_no_import_witness :
  FixRedundantBuiltinsAnnotation.handle_attribute live_is_none (λ _, false)
    (Int 3) (Some (mkAttribute "x" None (Some (ResolvedType ["int"] None))))
  = Some (mkAttribute "x" None (Some (ResolvedType ["int"] None))).
Proof.
  destruct (cleared_annotation_needs_no_import live_is_none (λ _, false)
              (mkHost NoneValue (λ _ _, false) (λ v _, v) (λ _, None))
              (Int 3) (mkAttribute "x" None (Some (ResolvedType ["int"] None)))
              (FixMissingImports.mkState ∅ None None [])) as [_ H].
  apply H. reflexivity.
Defined.

Lemma handle_field_none_hash_witness :
  FixMissingNoneHashFieldAnnotation.handle_field live_is_none parse_annotation_str
    [] (Int 3) (Some (mkField (mkAttribute "__hash__" None None) None))
  = Returned (Some (mkField (mkAttribute "__hash__" None None) None)).
Proof.
  destruct (handle_field_none_hash live_is_none parse_annotation_str
              [] (Int 3) (mkField (mkAttribute "__hash__" None None) None))
    as [H _].
  apply H. reflexivity.
Defined.

End AttributePassesWitnesses.

(** ** [FixMissingEnumMembersAnnotation]: the guessed types *)

Section GuessedTypes.
Import FixMissingEnumMembersAnnotation.
Context {Obj : Type}.
Variable handle_type_of : Obj → QualifiedName.
Variable parse_annotation_str : string → Annotation.

#[local] Abbreviation guess_type :=
  (_guess_dict_type handle_type_of parse_annotation_str).

Lemma list_to_set_constant {A : Type} (f : A → QualifiedName) (l : list A)
    (K : QualifiedName) :
  l ≠ [] → Forall (λ x, f x = K) l →
  (list_to_set (map f l) : gset QualifiedName) = {[ K ]}.
Proof.
  intros Hne Hl. apply set_eq. intros t.
  rewrite elem_of_list_to_set, elem_of_singleton.
  change (map f l) with (f <$> l). rewrite list_elem_of_fmap. split.
  - intros (x & -> & Hx). by apply (proj1 (Forall_forall _ _) Hl).
  - intros ->. destruct l as [|x l]; [done|]. exists x.
    split; [|by left]. symmetry. by apply (Forall_inv Hl).
Qed.

Lemma observed_type_single (K : QualifiedName) :
  observed_type parse_annotation_str {[ K ]} = Returned (ResolvedType K None).
Proof. unfold observed_type. by rewrite size_singleton, elements_singleton. Qed.

(** X23.  A mapping with entries whose keys all have one type and whose values
    all have one type gets the mapping type with exactly these two types
    as parameters, whatever the number and the order of the entries. *)
Theorem guess_dict_type_homogeneous (d : list (Obj * Obj))
    (K V dict_name : QualifiedName) (ps : option (list Annotation)) :
  d ≠ [] →
  Forall (λ kv, handle_type_of kv.1 = K ∧ handle_type_of kv.2 = V) d →
  parse_annotation_str "typing.Dict" = ResolvedType dict_name ps →
  guess_type d
  = Returned (Some (ResolvedType dict_name
                      (Some [ResolvedType K None; ResolvedType V None]))).
Proof.
  intros Hne Hd Hdict. unfold _guess_dict_type.
  destruct d as [|kv d]; [done|].
  change (length (kv :: d) =? 0)%nat with false. cbv iota.
  rewrite (list_to_set_constant (λ kv, handle_type_of kv.1) _ K);
    [|done|by eapply Forall_impl; [done|]; intros ? []].
  rewrite (list_to_set_constant (λ kv, handle_type_of kv.2) _ V);
    [|done|by eapply Forall_impl; [done|]; intros ? []].
  rewrite !observed_type_single, Hdict. done.
Qed.

(** X24.  When several types were observed, the type is the union of the
    observed types, each of them once; when [typing.Union] does not parse
    to a resolved type the assertion fails. *)
Theorem observed_type_union (types : gset QualifiedName) :
  size types ≠ 1 →
  (∀ union_name ps,
     parse_annotation_str "typing.Union" = ResolvedType union_name ps →
     ∃ params,
       observed_type parse_annotation_str types
       = Returned (ResolvedType union_name (Some params))
       ∧ NoDup params
       ∧ length params = size types
       ∧ ∀ a, a ∈ params ↔ ∃ t, t ∈ types ∧ a = ResolvedType t None)
  ∧ ((∀ union_name ps,
        parse_annotation_str "typing.Union" ≠ ResolvedType union_name ps) →
     observed_type parse_annotation_str types = Raised AssertionError).
Proof.
  intros Hsize. unfold observed_type.
  rewrite (proj2 (Nat.eqb_neq _ _) Hsize). split.
  - intros union_name ps ->. eexists. split; [done|]. split_and!.
    + change (map ?f ?l) with (f <$> l). apply NoDup_fmap_2.
      * by intros ?? [=].
      * apply NoDup_elements.
    + by rewrite length_map.
    + intros a. change (map ?f ?l) with (f <$> l).
      rewrite list_elem_of_fmap. setoid_rewrite elem_of_elements. naive_solver.
  - intros Hparse. destruct (parse_annotation_str "typing.Union") as [n p| |];
      [by destruct (Hparse n p)|done..].
Qed.

End GuessedTypes.

Section GuessedTypesWitnesses.
Import FixMissingEnumMembersAnnotation LiveValues.

Lemma guess_dict_type_homogeneous_witness :
  _guess_dict_type handle_type_of parse_annotation_str
    [(Str "RED", Int 0); (Str "GREEN", Int 1)]
  = Returned (Some (ResolvedType ["typing"; "Dict"]
                      (Some [ResolvedType ["str"] None; ResolvedType ["int"] None]))).
Proof.
  apply (guess_dict_type_homogeneous handle_type_of parse_annotation_str
           [(Str "RED", Int 0); (Str "GREEN", Int 1)]
           ["str"] ["int"] ["typing"; "Dict"] None).
  - discriminate.
  - repeat constructor.
  - reflexivity.
Defined.

Lemma observed_type_union_witness :
  ∃ params,
    observed_type parse_annotation_str ({[ ["str"]; ["int"] ]} : gset QualifiedName)
    = Returned (ResolvedType ["typing"; "Union"] (Some params))
    ∧ NoDup params
    ∧ length params = size ({[ ["str"]; ["int"] ]} : gset QualifiedName)
    ∧ ∀ a, a ∈ params
           ↔ ∃ t, t ∈ ({[ ["str"]; ["int"] ]} : gset QualifiedName)
                  ∧ a = ResolvedType t None.
Proof.
  destruct (observed_type_union parse_annotation_str
              ({[ ["str"]; ["int"] ]} : gset QualifiedName)) as [H _].
  - vm_compute. discriminate.
  - apply (H ["typing"; "Union"] None). reflexivity.
Defined.

End GuessedTypesWitnesses.

(** ** [FixValueReprRandomAddress]: what is left alone *)

Section Unchanged.
Import Re FixValueReprRandomAddress.
Variable u : Unicode.
Implicit Types (s name before after : list N).

Lemma match_here_nil : match_here (_pattern u) [] = None.
Proof. reflexivity. Qed.

Lemma sub_no_bracket s :
  Forall (λ c, c ≠ bracket) s → sub (_pattern u) replacement s = s.
Proof.
  intros Hs. apply sub_loop_no_match. intros k.
  pose proof (Forall_drop _ k _ Hs) as Hk.
  destruct (drop k s) as [|c rest]; [apply match_here_nil|].
  apply match_here_not_bracket. by apply (Forall_inv Hk).
Qed.

Lemma name_char_not_bracket (c : N) : name_char u c = true → c ≠ bracket.
Proof. by intros Hc ->. Qed.

Lemma name_char_not_blank (c : N) : name_char u c = true → c ≠ 32%N.
Proof. by intros Hc ->. Qed.

Lemma no_object_after_name name after :
  Forall (λ c, name_char u c = true) name →
  strip_prefix (text " object ") (name ++ text " object>" ++ after) = None.
Proof.
  intros [|c name' Hc _]; [reflexivity|].
  change (strip_prefix (text " object ") ((c :: name') ++ text " object>" ++ after))
    with (if (32 =? c)%N
          then strip_prefix (text "object ") (name' ++ text " object>" ++ after)
          else None).
  destruct (N.eqb_spec 32 c) as [<-|_]; [|done].
  by apply name_char_not_blank in Hc.
Qed.

Lemma match_here_sanitized name after :
  name ≠ [] → Forall (λ c, name_char u c = true) name →
  match_here (_pattern u) (repr_without_address name ++ after) = None.
Proof.
  intros Hne Hname. destruct Hname as [|c name Hc Hname]; [done|].
  unfold match_here, _pattern, repr_without_address. rewrite <- !app_assoc.
  rewrite rmatch_Seq, rmatch_Lit, rmatch_Seq, rmatch_Group.
  change ((c :: name) ++ ?x) with (c :: name ++ x).
  rewrite (rmatch_Plus_Class _ _ _ _ _ Hc).
  apply star_class_fail; [done|reflexivity|].
  intros j _. rewrite rmatch_Seq. apply rmatch_Lit_mismatch.
  apply no_object_after_name. by apply Forall_drop.
Qed.

(** X25.  A text without [<] is returned unchanged, and so is a repr that has no
    address, [<NAME object>], wherever it stands in a text without other
    [<]: the sanitization of a sanitized repr changes nothing. *)
Theorem value_to_repr_unchanged :
  (∀ s, Forall (λ c, c ≠ bracket) s → value_to_repr u s = s)
  ∧ (∀ before name after,
       Forall (λ c, c ≠ bracket) before →
       name ≠ [] → Forall (λ c, name_char u c = true) name →
       Forall (λ c, c ≠ bracket) after →
       value_to_repr u (before ++ repr_without_address name ++ after)
       = before ++ repr_without_address name ++ after).
Proof.
  split.
  - intros s Hs. by apply sub_no_bracket.
  - intros before name after Hbefore Hne Hname Hafter.
    unfold value_to_repr.
    induction Hbefore as [|c before Hc _ IH].
    + change ([] ++ ?x) with x.
      pose proof (match_here_sanitized name after Hne Hname) as Hnone.
      unfold repr_without_address in *. rewrite <- !app_assoc in *.
      change (text "<" ++ ?x) with (bracket :: x) in *.
      rewrite (sub_cons_no_match _ _ _ _ Hnone). f_equal.
      apply sub_no_bracket. rewrite !Forall_app.
      split_and!; [|by repeat constructor|done].
      eapply Forall_impl; [done|]. apply name_char_not_bracket.
    + change ((c :: before) ++ ?x) with (c :: before ++ x).
      rewrite sub_cons_no_match by (by apply match_here_not_bracket).
      by rewrite IH.
Qed.

End Unchanged.

Section UnchangedWitnesses.
Import Re FixValueReprRandomAddress UnicodeExamples.

Lemma value_to_repr_unchanged_witness :
  value_to_repr latin (text "[1, " ++ repr_without_address cafe ++ text ", 'a > b']")
  = text "[1, " ++ repr_without_address cafe ++ text ", 'a > b']".
Proof.
  destruct (value_to_repr_unchanged latin) as [_ H]. apply H.
  - repeat constructor; discriminate.
  - discriminate.
  - repeat constructor.
  - repeat constructor; discriminate.
Defined.

End UnchangedWitnesses.
